(** * A shallow embedding of the UDP echo server (server.c)

    The program is one C function, [main], that sets up a UDP socket and an
    epoll instance and then runs a readiness-driven echo loop.  Everything
    the program does is a system call, so the embedding is an instrumented
    state-passing semantics:

    - the local variables of [main] are a record, [locals];
    - every library or system call the program makes is recorded, with its
      arguments and its result, in a trace of [call]s;
    - the results of the calls are not computed by the program: they are
      inputs, supplied by an environment ([setup_env] for the calls made
      before the loop, one [iter_env] for each iteration of the loop);
    - [goto out] is the exceptional outcome [Out] of a small
      state-writer-exception monad.

    Kernel-side facts (which descriptors are open, which interest is
    registered with epoll, which flags a socket carries) are read off the
    trace. *)

From Stdlib Require Import String.
From Stdlib.Strings Require Import Byte.
From Stdlib Require Import ZArith List Bool Lia Permutation.
Import ListNotations.
Local Open Scope Z_scope.

Set Implicit Arguments.

(** ** Constants of the C library headers (Linux values) *)

Module Hdr.
Definition EXIT_SUCCESS : Z := 0.
Definition EXIT_FAILURE : Z := 1.

Definition EINTR : Z := 4.
Definition EAGAIN : Z := 11.

Definition AF_INET : Z := 2.
Definition SOCK_DGRAM : Z := 2.
Definition SOL_SOCKET : Z := 1.
Definition SO_REUSEPORT : Z := 15.
Definition O_NONBLOCK : Z := 2048.

Definition EPOLLIN : Z := 1.
Definition EPOLLOUT : Z := 4.
Definition EPOLLONESHOT : Z := Z.shiftl 1 30.

Definition EPOLL_CTL_ADD : Z := 1.
Definition EPOLL_CTL_MOD : Z := 3.

(** [sizeof(struct sockaddr)] *)
Definition SIZEOF_SOCKADDR : Z := 16.
End Hdr.
Import Hdr.

(** [#define MAX_BUFSIZE 1472] *)
Definition MAX_BUFSIZE : Z := 1472.

(** [size_t] is a 64-bit unsigned integer: assignments to [datasize] wrap. *)
Definition wrap64 (z : Z) : Z := z mod 2 ^ 64.

(** The two values the program ever stores in [ev.events]. *)
Definition READABLE : Z := Z.lor EPOLLIN EPOLLONESHOT.
Definition WRITABLE : Z := Z.lor EPOLLOUT EPOLLONESHOT.

(** A C condition [x & mask]: true when some bit of [mask] is set in [x]. *)
Definition has_bits (x mask : Z) : bool := negb (Z.land x mask =? 0).

(** ** Data *)

(** A [struct sockaddr], as its raw bytes. *)
Definition sockaddr := list byte.

(** Result of a call that returns an [int] and sets [errno] on failure. *)
Record ret_t := Ret { rv : Z; errno_of : Z }.

(** Result of [epoll_wait(epfd, &events, 1, -1)].  With one slot and an
    infinite timeout the call either fails (returns -1) or returns 1 and
    fills [events]; [reported] is the [events.events] it wrote. *)
Inductive wait_result :=
| WaitErr (errno : Z)
| WaitReady (reported : Z).

(** Result of [recvfrom].  On success the kernel hands over the datagram
    as it was sent ([payload]), the source address and its length. *)
Inductive recv_result :=
| RecvErr (errno : Z)
| RecvOk (payload : list byte) (src : sockaddr) (srclen : Z).

(** The places where [ON_ERROR_PERROR_GOTO] is expanded in [main]. *)
Inductive site :=
| At_socket | At_set_reuseport | At_bind | At_set_nonblock
| At_epoll_create1 | At_epoll_ctl_add
| At_epoll_wait | At_recvfrom | At_sendto | At_epoll_ctl_mod.

(** Source line of each expansion ([__LINE__]).  The expansions for
    [epoll_wait], [recvfrom] and [sendto] are written on several lines;
    the line given is the one their first token is on. *)
Definition site_line (w : site) : Z :=
  match w with
  | At_socket => 117 | At_set_reuseport => 123 | At_bind => 134
  | At_set_nonblock => 137 | At_epoll_create1 => 143
  | At_epoll_ctl_add => 154 | At_epoll_wait => 163 | At_recvfrom => 183
  | At_sendto => 214 | At_epoll_ctl_mod => 232
  end.

(** The [func] argument of each expansion, which [perror] prints. *)
Definition site_label (w : site) : string :=
  match w with
  | At_socket => "sockfd" | At_set_reuseport => "sockfd"
  | At_bind => "bind" | At_set_nonblock => "bind"
  | At_epoll_create1 => "epoll_create1" | At_epoll_ctl_add => "epoll_ctl"
  | At_epoll_wait => "epoll_wait" | At_recvfrom => "recvfrom"
  | At_sendto => "sendto" | At_epoll_ctl_mod => "epoll_ctl"
  end%string.

(** One entry of the trace: a call, its arguments and its result. *)
Inductive call :=
| C_malloc (size : Z) (ok : bool)
| C_socket (domain type protocol : Z) (r : Z)
| C_fcntl_getfl (fd : Z) (r : Z)
| C_fcntl_setfl (fd flags : Z) (r : Z)
| C_setsockopt (fd level optname optval : Z) (r : Z)
| C_bind (fd family port : Z) (addr : string) (r : Z)
| C_epoll_create1 (flags : Z) (r : Z)
| C_epoll_ctl (epfd op fd events : Z) (r : Z)
| C_epoll_wait (epfd maxevents timeout : Z) (r : wait_result)
| C_recvfrom (fd len : Z) (r : recv_result)
| C_sendto (fd : Z) (payload : list byte) (dest : sockaddr) (destlen : Z)
           (r : Z)
| C_close (fd : Z)
| C_free
| C_fprintf_alloc (size : Z)
| C_fprintf_location (func : string) (line : Z)
| C_perror (label : string) (errno : Z).

Definition trace := list call.

(** The local variables of [main] that the program reads again after
    writing them, and [errno].  [buf] is the content of the allocated
    region; [bufptr] is kept as its offset from the start of the region.
    A variable that the program has not assigned yet holds whatever the
    starting record holds. *)
Record locals := Locals {
  errno : Z;
  epfd : Z;
  ret : Z;
  sockfd : Z;
  insaddr : sockaddr;
  insaddrlen : Z;
  ev_events : Z;
  buf : list byte;
  bufptr : Z;
  datasize : Z
}.

Definition set_errno (v : Z) (s : locals) : locals :=
  Locals v (epfd s) (ret s) (sockfd s) (insaddr s) (insaddrlen s)
         (ev_events s) (buf s) (bufptr s) (datasize s).
Definition set_epfd (v : Z) (s : locals) : locals :=
  Locals (errno s) v (ret s) (sockfd s) (insaddr s) (insaddrlen s)
         (ev_events s) (buf s) (bufptr s) (datasize s).
Definition set_ret (v : Z) (s : locals) : locals :=
  Locals (errno s) (epfd s) v (sockfd s) (insaddr s) (insaddrlen s)
         (ev_events s) (buf s) (bufptr s) (datasize s).
Definition set_sockfd (v : Z) (s : locals) : locals :=
  Locals (errno s) (epfd s) (ret s) v (insaddr s) (insaddrlen s)
         (ev_events s) (buf s) (bufptr s) (datasize s).
Definition set_insaddr (a : sockaddr) (s : locals) : locals :=
  Locals (errno s) (epfd s) (ret s) (sockfd s) a (insaddrlen s)
         (ev_events s) (buf s) (bufptr s) (datasize s).
Definition set_insaddrlen (n : Z) (s : locals) : locals :=
  Locals (errno s) (epfd s) (ret s) (sockfd s) (insaddr s) n
         (ev_events s) (buf s) (bufptr s) (datasize s).
Definition set_ev_events (v : Z) (s : locals) : locals :=
  Locals (errno s) (epfd s) (ret s) (sockfd s) (insaddr s) (insaddrlen s)
         v (buf s) (bufptr s) (datasize s).
Definition set_buf (b : list byte) (s : locals) : locals :=
  Locals (errno s) (epfd s) (ret s) (sockfd s) (insaddr s) (insaddrlen s)
         (ev_events s) b (bufptr s) (datasize s).
Definition set_bufptr (v : Z) (s : locals) : locals :=
  Locals (errno s) (epfd s) (ret s) (sockfd s) (insaddr s) (insaddrlen s)
         (ev_events s) (buf s) v (datasize s).
Definition set_datasize (v : Z) (s : locals) : locals :=
  Locals (errno s) (epfd s) (ret s) (sockfd s) (insaddr s) (insaddrlen s)
         (ev_events s) (buf s) (bufptr s) v.

(** ** Memory of the buffer *)

(** The [len] bytes found at offset [off] of a region. *)
Definition bytes_at (mem : list byte) (off len : Z) : list byte :=
  firstn (Z.to_nat len) (skipn (Z.to_nat off) mem).

(** What [recvfrom(fd, buf, cap, ...)] leaves in the region: the first
    [cap] bytes of the datagram, the rest of the region untouched. *)
Definition received (cap : Z) (payload : list byte) : list byte :=
  firstn (Z.to_nat cap) payload.

Definition store_front (mem data : list byte) : list byte :=
  data ++ skipn (length data) mem.

(** ** Control: state, trace and [goto out] *)

Inductive res (A : Type) :=
| Ok (a : A) (s : locals)
| Out (s : locals).
Arguments Out {A} s.

Definition M (A : Type) := locals -> trace * res A.

Definition mret {A} (a : A) : M A := fun s => ([], Ok a s).

Definition mbind {A B} (m : M A) (k : A -> M B) : M B :=
  fun s =>
    match m s with
    | (t, Ok a s') => (t ++ fst (k a s'), snd (k a s'))
    | (t, Out s') => (t, Out s')
    end.

Notation "x <- m ;; k" := (mbind m (fun x => k))
  (at level 61, m at next level, right associativity).
Notation "m ;;; k" := (mbind m (fun _ => k))
  (at level 61, right associativity).

Definition emit (c : call) : M unit := fun s => ([c], Ok tt s).
Definition read {A} (f : locals -> A) : M A := fun s => ([], Ok (f s) s).
Definition write (f : locals -> locals) : M unit := fun s => ([], Ok tt (f s)).
Definition goto_out {A} : M A := fun s => ([], Out s).

(** [ON_ERROR_PERROR_GOTO(out, cond, func, ret, EXIT_FAILURE)] expanded at
    [w]: nothing when [cond] holds; otherwise the two messages, the
    assignment to [ret] and the jump. *)
Definition ON_ERROR_PERROR_GOTO (w : site) (cond : bool) : M unit :=
  if cond then mret tt
  else
    emit (C_fprintf_location "main" (site_line w)) ;;;
    e <- read errno ;;
    emit (C_perror (site_label w) e) ;;;
    write (set_ret EXIT_FAILURE) ;;;
    goto_out.

(** ** The calls, with the effect the kernel has on the program's memory *)

(** A failing call leaves its error number in [errno]. *)
Definition note_errno (r : ret_t) (s : locals) : locals :=
  if rv r <? 0 then set_errno (errno_of r) s else s.

(** A call that only returns an [int]: it is recorded as [c] and answered
    with [r]. *)
Definition syscall (c : call) (r : ret_t) : M Z :=
  emit c ;;; write (note_errno r) ;;; mret (rv r).

Definition sys_socket (r : ret_t) : M Z :=
  syscall (C_socket AF_INET SOCK_DGRAM 0 (rv r)) r.

Definition sys_fcntl_getfl (fd : Z) (r : ret_t) : M Z :=
  syscall (C_fcntl_getfl fd (rv r)) r.

Definition sys_fcntl_setfl (fd flags : Z) (r : ret_t) : M Z :=
  syscall (C_fcntl_setfl fd flags (rv r)) r.

Definition sys_setsockopt (fd level optname optval : Z) (r : ret_t) : M Z :=
  syscall (C_setsockopt fd level optname optval (rv r)) r.

Definition sys_bind (fd family port : Z) (addr : string) (r : ret_t) : M Z :=
  syscall (C_bind fd family port addr (rv r)) r.

Definition sys_epoll_create1 (flags : Z) (r : ret_t) : M Z :=
  syscall (C_epoll_create1 flags (rv r)) r.

Definition sys_epoll_ctl (ep op fd events : Z) (r : ret_t) : M Z :=
  syscall (C_epoll_ctl ep op fd events (rv r)) r.

(** Returns [rc] and the [events.events] the kernel wrote. *)
Definition sys_epoll_wait (ep maxevents timeout : Z) (r : wait_result)
  : M (Z * Z) :=
  emit (C_epoll_wait ep maxevents timeout r) ;;;
  match r with
  | WaitErr e => write (set_errno e) ;;; mret (-1, 0)
  | WaitReady reported => mret (1, reported)
  end.

(** [recvfrom(fd, buf, cap, 0, &insaddr, &insaddrlen)]: on success the
    kernel copies the datagram, cut to [cap] bytes, to the start of [buf],
    stores the source address and its length, and returns the number of
    bytes copied. *)
Definition sys_recvfrom (fd cap : Z) (r : recv_result) : M Z :=
  emit (C_recvfrom fd cap r) ;;;
  match r with
  | RecvErr e => write (set_errno e) ;;; mret (-1)
  | RecvOk payload src srclen =>
      let data := received cap payload in
      write (fun s => set_buf (store_front (buf s) data) s) ;;;
      write (set_insaddr src) ;;;
      write (set_insaddrlen srclen) ;;;
      mret (Z.of_nat (length data))
  end.

(** [sendto(fd, buf + off, len, 0, &insaddr, insaddrlen)] *)
Definition sys_sendto (fd off len : Z) (dest : sockaddr) (destlen : Z)
  (r : ret_t) : M Z :=
  mem <- read buf ;;
  syscall (C_sendto fd (bytes_at mem off len) dest destlen (rv r)) r.

(** ** The program *)

(** What the environment answers to the calls made before the loop. *)
Record setup_env := SetupEnv {
  e_malloc : bool;
  e_socket : ret_t;
  e_getfl : ret_t;
  e_setfl : ret_t;
  e_bind : ret_t;
  e_setsockopt : ret_t;
  e_epoll_create1 : ret_t;
  e_epoll_ctl_add : ret_t
}.

(** What the environment answers to the calls of one loop iteration.  An
    iteration makes at most one of [recvfrom] and [sendto]. *)
Record iter_env := IterEnv {
  i_wait : wait_result;
  i_recv : recv_result;
  i_send : ret_t;
  i_ctl : ret_t
}.

(** [static int set_nonblock(int fd)] *)
Definition set_nonblock (E : setup_env) (fd : Z) : M Z :=
  let optval := 1 in
  sys_setsockopt fd SOL_SOCKET SO_REUSEPORT optval (e_setsockopt E).

(** [static int set_reuseport(int fd)] *)
Definition set_reuseport (E : setup_env) (fd : Z) : M Z :=
  flags <- sys_fcntl_getfl fd (e_getfl E) ;;
  if flags =? -1 then mret (-1)
  else
    r <- sys_fcntl_setfl fd (Z.lor flags O_NONBLOCK) (e_setfl E) ;;
    if -1 =? r then mret (-1) else mret 0.

(** [htons(5123)] on a little-endian machine. *)
Definition htons (p : Z) : Z :=
  Z.lor (Z.shiftl (Z.land p 255) 8) (Z.land (Z.shiftr p 8) 255).

(** [main], from the call of [socket] to the first [epoll_ctl]. *)
Definition setup (E : setup_env) : M unit :=
  fd <- sys_socket (e_socket E) ;;
  write (set_sockfd fd) ;;;
  ON_ERROR_PERROR_GOTO At_socket (0 <=? fd) ;;;
  rc <- set_reuseport E fd ;;
  ON_ERROR_PERROR_GOTO At_set_reuseport (rc =? 0) ;;;
  rc <- sys_bind fd AF_INET (htons 5123) "127.0.0.1" (e_bind E) ;;
  ON_ERROR_PERROR_GOTO At_bind (0 <=? rc) ;;;
  rc <- set_nonblock E fd ;;
  ON_ERROR_PERROR_GOTO At_set_nonblock (rc =? 0) ;;;
  ep <- sys_epoll_create1 0 (e_epoll_create1 E) ;;
  write (set_epfd ep) ;;;
  ON_ERROR_PERROR_GOTO At_epoll_create1 (0 <=? ep) ;;;
  write (set_ev_events (Z.lor EPOLLIN EPOLLONESHOT)) ;;;
  rc <- sys_epoll_ctl ep EPOLL_CTL_ADD fd (Z.lor EPOLLIN EPOLLONESHOT)
          (e_epoll_ctl_add E) ;;
  ON_ERROR_PERROR_GOTO At_epoll_ctl_add (rc =? 0).

(** The [if (events.events & EPOLLIN)] branch. *)
Definition on_readable (E : iter_env) : M unit :=
  write (set_insaddrlen SIZEOF_SOCKADDR) ;;;
  fd <- read sockfd ;;
  nread <- sys_recvfrom fd MAX_BUFSIZE (i_recv E) ;;
  if nread <? 0 then
    e <- read errno ;;
    (if negb (e =? EINTR) && negb (e =? EAGAIN)
     then ON_ERROR_PERROR_GOTO At_recvfrom (0 <=? nread)
     else mret tt) ;;;
    write (set_ev_events (Z.lor EPOLLIN EPOLLONESHOT))
  else
    write (set_datasize (wrap64 nread)) ;;;
    write (set_bufptr 0) ;;;
    write (set_ev_events (Z.lor EPOLLOUT EPOLLONESHOT)).

(** The [else if (events.events & EPOLLOUT)] branch. *)
Definition on_writable (E : iter_env) : M unit :=
  fd <- read sockfd ;;
  p <- read bufptr ;;
  n <- read datasize ;;
  a <- read insaddr ;;
  alen <- read insaddrlen ;;
  nwritten <- sys_sendto fd p n a alen (i_send E) ;;
  (if nwritten <? 0 then
     e <- read errno ;;
     if negb (e =? EINTR) && negb (e =? EAGAIN)
     then ON_ERROR_PERROR_GOTO At_sendto (0 <=? nwritten)
     else mret tt
   else
     write (fun s => set_datasize (wrap64 (datasize s - nwritten)) s) ;;;
     write (fun s => set_bufptr (bufptr s + nwritten) s)) ;;;
  n' <- read datasize ;;
  if n' =? 0
  then write (set_ev_events (Z.lor EPOLLIN EPOLLONESHOT))
  else write (set_ev_events (Z.lor EPOLLOUT EPOLLONESHOT)).

(** "Watchers arming...": the [epoll_ctl(EPOLL_CTL_MOD)] that ends an
    iteration. *)
Definition rearm (E : iter_env) : M unit :=
  ep <- read epfd ;;
  fd <- read sockfd ;;
  ev <- read ev_events ;;
  rc <- sys_epoll_ctl ep EPOLL_CTL_MOD fd ev (i_ctl E) ;;
  ON_ERROR_PERROR_GOTO At_epoll_ctl_mod (rc =? 0).

(** One iteration of [while (1)].  [Ok] is the end of the body or
    [continue]; [Out] is [goto out]. *)
Definition loop_body (E : iter_env) : M unit :=
  ep <- read epfd ;;
  w <- sys_epoll_wait ep 1 (-1) (i_wait E) ;;
  let (rc, events) := w in
  if rc <? 0 then
    e <- read errno ;;
    if negb (e =? EINTR)
    then ON_ERROR_PERROR_GOTO At_epoll_wait (0 <=? rc)
    else mret tt
  else
    (if has_bits events EPOLLIN then on_readable E
     else if has_bits events EPOLLOUT then on_writable E
     else mret tt) ;;;
    rearm E.

(** [while (1)] against the answers for finitely many iterations.  [Ok]:
    the program is still in the loop when the answers run out. *)
Fixpoint event_loop (es : list iter_env) : M unit :=
  match es with
  | [] => mret tt
  | E :: es' => loop_body E ;;; event_loop es'
  end.

(** The code at label [out], up to the value [main] returns. *)
Definition teardown (s : locals) : trace * Z :=
  ((if 0 <=? epfd s then [C_close (epfd s)] else []) ++
   (if 0 <=? sockfd s then [C_close (sockfd s)] else []) ++
   [C_free],
   ret s).

(** How a run of [main] against finitely many answers ends. *)
Inductive ending :=
| Exited (code : Z)
| Looping (s : locals).

(** [int main()].  [junk] gives the variables their indeterminate initial
    values and the region its initial content. *)
Definition main (junk : locals) (E : setup_env) (es : list iter_env)
  : trace * ending :=
  let s0 := set_ret EXIT_SUCCESS (set_epfd (-1) junk) in
  if negb (e_malloc E) then
    ([C_malloc MAX_BUFSIZE false; C_fprintf_alloc MAX_BUFSIZE],
     Exited EXIT_FAILURE)
  else
    match (setup E ;;; event_loop es) s0 with
    | (t, Ok _ s) => (C_malloc MAX_BUFSIZE true :: t, Looping s)
    | (t, Out s) =>
        let (t', code) := teardown s in
        (C_malloc MAX_BUFSIZE true :: t ++ t', Exited code)
    end.

(** ** Names for what the loop computes *)

(** The error numbers after which a failed [recvfrom] or [sendto] is
    tried again: [!(errno != EINTR && errno != EAGAIN)]. *)
Definition transient (e : Z) : bool := (e =? EINTR) || (e =? EAGAIN).

(** The choice at the end of the writable branch: [if (!datasize)]. *)
Definition next_interest (n : Z) : Z := if n =? 0 then READABLE else WRITABLE.

Definition diag (w : site) (e : Z) : trace :=
  [C_fprintf_location "main" (site_line w); C_perror (site_label w) e].

(** What one iteration does once [epoll_wait] has returned [reported]. *)
Definition dispatch (reported : Z) (E : iter_env) : M unit :=
  (if has_bits reported EPOLLIN then on_readable E
   else if has_bits reported EPOLLOUT then on_writable E
   else mret tt) ;;;
  rearm E.

(** ** What can be read off a trace *)

(** The bytes the kernel took over in one call: a [sendto] that returns
    [r >= 0] has sent the first [r] bytes it was given. *)
Definition accepted (c : call) : list byte :=
  match c with
  | C_sendto _ payload _ _ r =>
      if r <? 0 then [] else firstn (Z.to_nat r) payload
  | _ => []
  end.

(** Everything sent, in order. *)
Definition delivered (t : trace) : list byte := flat_map accepted t.

(** The destination of every [sendto], in order. *)
Definition destinations (t : trace) : list (sockaddr * Z) :=
  flat_map (fun c => match c with
                     | C_sendto _ _ dest destlen _ => [(dest, destlen)]
                     | _ => []
                     end) t.

Definition is_recvfrom (c : call) : bool :=
  match c with C_recvfrom _ _ _ => true | _ => false end.

Definition is_datagram (c : call) : bool :=
  match c with C_recvfrom _ _ (RecvOk _ _ _) => true | _ => false end.

Definition is_sendto (c : call) : bool :=
  match c with C_sendto _ _ _ _ _ => true | _ => false end.

(** A [sendto] that did not fail. *)
Definition is_sent (c : call) : bool :=
  match c with C_sendto _ _ _ _ r => 0 <=? r | _ => false end.

(** Whether a call of some kind occurs in a trace. *)
Definition call_in_trace (kind : call -> bool) (t : trace) : bool :=
  existsb kind t.

(** The interest the kernel holds for the socket: the event mask of the
    last [epoll_ctl] that succeeded. *)
Definition registered_step (acc : option Z) (c : call) : option Z :=
  match c with
  | C_epoll_ctl _ _ _ events r => if r =? 0 then Some events else acc
  | _ => acc
  end.

Definition registered (t : trace) : option Z :=
  fold_left registered_step t None.

(** The part of the last datagram received that has not been sent back
    yet, and the address it came from. *)
Definition flight : Type := list byte * option (sockaddr * Z).

Definition flight_step (f : flight) (c : call) : flight :=
  match c with
  | C_recvfrom _ cap (RecvOk payload src srclen) =>
      (received cap payload, Some (src, srclen))
  | C_sendto _ _ _ _ r =>
      if r <? 0 then f else (skipn (Z.to_nat r) (fst f), snd f)
  | _ => f
  end.

Definition in_flight (t : trace) : flight := fold_left flight_step t ([], None).

Definition unsent (t : trace) : list byte := fst (in_flight t).
Definition peer (t : trace) : option (sockaddr * Z) := snd (in_flight t).

(** Descriptors handed out, descriptors closed, regions allocated and
    regions released. *)
Definition opened (t : trace) : list Z :=
  flat_map (fun c => match c with
                     | C_socket _ _ _ r | C_epoll_create1 _ r =>
                         if 0 <=? r then [r] else []
                     | _ => []
                     end) t.

Definition closed (t : trace) : list Z :=
  flat_map (fun c => match c with C_close fd => [fd] | _ => [] end) t.

Definition allocations (t : trace) : nat :=
  length (filter (fun c => match c with C_malloc _ true => true
                                   | _ => false end) t).

Definition releases (t : trace) : nat :=
  length (filter (fun c => match c with C_free => true | _ => false end) t).

(** What was written to the error stream. *)
Definition is_stderr (c : call) : bool :=
  match c with
  | C_fprintf_alloc _ | C_fprintf_location _ _ | C_perror _ _ => true
  | _ => false
  end.

Definition stderr (t : trace) : trace := filter is_stderr t.

(** The file status flags of [fd]: those of the last [F_SETFL] that
    succeeded. *)
Definition status_flags_step (fd : Z) (acc : option Z) (c : call) : option Z :=
  match c with
  | C_fcntl_setfl fd' flags r =>
      if (fd' =? fd) && negb (r =? -1) then Some flags else acc
  | _ => acc
  end.

Definition status_flags (fd : Z) (t : trace) : option Z :=
  fold_left (status_flags_step fd) t None.

Definition nonblocking (fd : Z) (t : trace) : bool :=
  match status_flags fd t with
  | Some flags => has_bits flags O_NONBLOCK
  | None => false
  end.

(** The value of the [SO_REUSEPORT] option of [fd]: the one given by the
    last [setsockopt] for it that succeeded. *)
Definition reuseport_step (fd : Z) (acc : Z) (c : call) : Z :=
  match c with
  | C_setsockopt fd' level optname optval r =>
      if (fd' =? fd) && (level =? SOL_SOCKET) && (optname =? SO_REUSEPORT)
         && (r =? 0)
      then optval else acc
  | _ => acc
  end.

Definition reuseport (fd : Z) (t : trace) : bool :=
  negb (fold_left (reuseport_step fd) t 0 =? 0).

(** ** What the environment is assumed to respect *)

(** [epoll_wait] reports readable or writable only if the registered
    interest asks for it. *)
Definition wait_ok (interest : Z) (w : wait_result) : bool :=
  match w with
  | WaitErr _ => true
  | WaitReady reported =>
      implb (has_bits reported EPOLLIN) (has_bits interest EPOLLIN) &&
      implb (has_bits reported EPOLLOUT) (has_bits interest EPOLLOUT)
  end.

(** [sendto] sends at most the [len] bytes it is given. *)
Definition send_ok (len : Z) (r : ret_t) : bool := rv r <=? len.

Definition env_ok (s : locals) (E : iter_env) : bool :=
  wait_ok (ev_events s) (i_wait E) && send_ok (datasize s) (i_send E).

(** The answers for a run of the loop respect the above at each
    iteration, in the state the iteration starts from. *)
Fixpoint script_ok (s : locals) (es : list iter_env) : bool :=
  match es with
  | [] => true
  | E :: es' =>
      env_ok s E &&
      match snd (loop_body E s) with
      | Ok _ s' => script_ok s' es'
      | Out _ => true
      end
  end.

(** The same for a run of [main]. *)
Definition main_ok (junk : locals) (E : setup_env) (es : list iter_env)
  : bool :=
  match snd (setup E (set_ret EXIT_SUCCESS (set_epfd (-1) junk))) with
  | Ok _ s => script_ok s es
  | Out _ => true
  end.

(** ** The iterations that do not leave the loop *)

Definition wait_call (E : iter_env) (s : locals) : call :=
  C_epoll_wait (epfd s) 1 (-1) (i_wait E).

Definition ctl_call (s : locals) : call :=
  C_epoll_ctl (epfd s) EPOLL_CTL_MOD (sockfd s) (ev_events s) 0.

Definition recv_call (E : iter_env) (s : locals) : call :=
  C_recvfrom (sockfd s) MAX_BUFSIZE (i_recv E).

Definition send_call (E : iter_env) (s : locals) : call :=
  C_sendto (sockfd s) (bytes_at (buf s) (bufptr s) (datasize s))
           (insaddr s) (insaddrlen s) (rv (i_send E)).

(** The state after a datagram has been received. *)
Definition after_recv (payload : list byte) (src : sockaddr) (srclen : Z)
  (s : locals) : locals :=
  let data := received MAX_BUFSIZE payload in
  set_ev_events WRITABLE
    (set_bufptr 0
       (set_datasize (wrap64 (Z.of_nat (length data)))
          (set_insaddrlen srclen
             (set_insaddr src
                (set_buf (store_front (buf s) data)
                   (set_insaddrlen SIZEOF_SOCKADDR s)))))).

(** The state after [sendto] has returned [r >= 0]. *)
Definition after_send (r : Z) (s : locals) : locals :=
  set_ev_events (next_interest (wrap64 (datasize s - r)))
    (set_bufptr (bufptr s + r) (set_datasize (wrap64 (datasize s - r)) s)).

Inductive iteration (E : iter_env) (s : locals) : trace -> locals -> Prop :=
| it_interrupted :
    i_wait E = WaitErr EINTR ->
    iteration E s [wait_call E s] (set_errno EINTR s)
| it_recv_again reported e :
    i_wait E = WaitReady reported ->
    has_bits reported EPOLLIN = true ->
    i_recv E = RecvErr e -> transient e = true ->
    rv (i_ctl E) = 0 ->
    let s' := set_ev_events READABLE
                (set_errno e (set_insaddrlen SIZEOF_SOCKADDR s)) in
    iteration E s [wait_call E s; recv_call E s; ctl_call s'] s'
| it_recv_ok reported payload src srclen :
    i_wait E = WaitReady reported ->
    has_bits reported EPOLLIN = true ->
    i_recv E = RecvOk payload src srclen ->
    rv (i_ctl E) = 0 ->
    let s' := after_recv payload src srclen s in
    iteration E s [wait_call E s; recv_call E s; ctl_call s'] s'
| it_send_again reported :
    i_wait E = WaitReady reported ->
    has_bits reported EPOLLIN = false ->
    has_bits reported EPOLLOUT = true ->
    rv (i_send E) < 0 -> transient (errno_of (i_send E)) = true ->
    rv (i_ctl E) = 0 ->
    let s' := set_ev_events (next_interest (datasize s))
                (set_errno (errno_of (i_send E)) s) in
    iteration E s [wait_call E s; send_call E s; ctl_call s'] s'
| it_send_ok reported :
    i_wait E = WaitReady reported ->
    has_bits reported EPOLLIN = false ->
    has_bits reported EPOLLOUT = true ->
    0 <= rv (i_send E) ->
    rv (i_ctl E) = 0 ->
    let s' := after_send (rv (i_send E)) s in
    iteration E s [wait_call E s; send_call E s; ctl_call s'] s'
| it_idle reported :
    i_wait E = WaitReady reported ->
    has_bits reported EPOLLIN = false ->
    has_bits reported EPOLLOUT = false ->
    rv (i_ctl E) = 0 ->
    iteration E s [wait_call E s; ctl_call s] s.

(** ** Fatal ends *)

(** The expansion of [ON_ERROR_PERROR_GOTO] that checks the result of a
    call. *)
Definition guard (c : call) : option site :=
  match c with
  | C_socket _ _ _ _ => Some At_socket
  | C_fcntl_getfl _ _ | C_fcntl_setfl _ _ _ => Some At_set_reuseport
  | C_bind _ _ _ _ _ => Some At_bind
  | C_setsockopt _ _ _ _ _ => Some At_set_nonblock
  | C_epoll_create1 _ _ => Some At_epoll_create1
  | C_epoll_ctl _ op _ _ _ =>
      Some (if op =? EPOLL_CTL_ADD then At_epoll_ctl_add
            else At_epoll_ctl_mod)
  | C_epoll_wait _ _ _ _ => Some At_epoll_wait
  | C_recvfrom _ _ _ => Some At_recvfrom
  | C_sendto _ _ _ _ _ => Some At_sendto
  | _ => None
  end.

(** A trace that ends with a call, immediately followed by the two
    messages of the expansion that checks it, with nothing written to the
    error stream before. *)
Definition fatal_end (t : trace) : Prop :=
  exists pre c w e,
    t = pre ++ c :: diag w e /\ guard c = Some w /\ stderr pre = [].

(** The descriptors [main] holds at label [out]. *)
Definition held (s : locals) : list Z :=
  (if 0 <=? sockfd s then [sockfd s] else []) ++
  (if 0 <=? epfd s then [epfd s] else []).

(** A stretch of trace with no descriptor opened or closed, no region
    allocated or released and nothing written to the error stream. *)
Definition quiet (t : trace) : Prop :=
  opened t = [] /\ closed t = [] /\ stderr t = [] /\
  allocations t = 0%nat /\ releases t = 0%nat.

(** ** Concrete inputs *)

(** The starting values used in the examples: all variables zero, the
    region eight zero bytes. *)
Definition junk0 : locals :=
  Locals 0 0 0 0 [] 0 0 (repeat "000"%byte 8) 0 0.

Definition ok (v : Z) : ret_t := Ret v 0.
Definition failed (e : Z) : ret_t := Ret (-1) e.

(** A setup in which every call succeeds: the socket is descriptor 3, the
    epoll instance descriptor 4, and the socket's flags were [O_RDWR]. *)
Definition setup_fine : setup_env :=
  SetupEnv true (ok 3) (ok 2) (ok 0) (ok 0) (ok 0) (ok 4) (ok 0).

(** The same with [malloc] returning [NULL]. *)
Definition setup_nomem : setup_env :=
  SetupEnv false (ok 3) (ok 2) (ok 0) (ok 0) (ok 0) (ok 4) (ok 0).

Definition client : sockaddr := ["002"; "000"; "048"; "057"; "127"; "000";
  "000"; "001"; "000"; "000"; "000"; "000"; "000"; "000"; "000"; "000"]%byte.

(** The socket is readable and [recvfrom] answers [r]. *)
Definition readable (r : recv_result) : iter_env :=
  IterEnv (WaitReady EPOLLIN) r (failed EAGAIN) (ok 0).

(** The socket is writable and [sendto] answers [r]. *)
Definition writable (r : ret_t) : iter_env :=
  IterEnv (WaitReady EPOLLOUT) (RecvErr EAGAIN) r (ok 0).

(** [epoll_wait] fails with [e]. *)
Definition wait_fails (e : Z) : iter_env :=
  IterEnv (WaitErr e) (RecvErr EAGAIN) (failed EAGAIN) (ok 0).

Definition ping : list byte := ["p"; "i"; "n"; "g"]%byte.

(** ** The claims as the specification words them, where they are
    compared with the program *)

(** The states of the specification's state machine. *)
Inductive phase := AWAIT_READ | AWAIT_WRITE.

(** "AWAIT_READ -> readable interest; AWAIT_WRITE -> writable interest" *)
Definition interest_of (p : phase) : Z :=
  match p with AWAIT_READ => READABLE | AWAIT_WRITE => WRITABLE end.

(** The transitions of the specification, replayed on the calls of a
    trace; the second component is the number of bytes still to send.  A
    receive of [n] bytes leads to [AWAIT_WRITE] with [n] bytes to send; a
    send that fails transiently remains in [AWAIT_WRITE]; a send of [m]
    bytes leaves [datasize - m] to send and leads to [AWAIT_READ] when
    that is zero. *)
Definition spec_step (st : phase * Z) (c : call) : phase * Z :=
  match c with
  | C_recvfrom _ cap (RecvOk payload _ _) =>
      (AWAIT_WRITE, Z.of_nat (length (received cap payload)))
  | C_sendto _ _ _ _ r =>
      if r <? 0 then st
      else if snd st - r =? 0 then (AWAIT_READ, 0)
           else (AWAIT_WRITE, snd st - r)
  | _ => st
  end.

Definition spec_run (t : trace) : phase * Z :=
  fold_left spec_step t (AWAIT_READ, 0).

Definition spec_phase (t : trace) : phase := fst (spec_run t).

(** "Any internal failure yields a non-zero failure status with a
    diagnostic message to the error stream identifying the failing
    operation, function name, and source location." *)
Definition every_fatal_end_is_located : Prop :=
  forall junk E es t code,
    main junk E es = (t, Exited code) ->
    code <> EXIT_SUCCESS /\
    exists func line label e,
      stderr t = [C_fprintf_location func line; C_perror label e].

(** ** The two states of the loop *)

(** Awaiting a datagram: readable interest is armed and nothing received
    remains to be sent. *)
Definition awaiting (t : trace) (s : locals) : Prop :=
  ev_events s = READABLE /\ unsent t = [].

(** Echoing a datagram: writable interest is armed, the [datasize] bytes
    at the cursor lie inside the region and are the part of the last
    datagram that has not been sent yet, and the saved address is the one
    that datagram came from. *)
Definition echoing (t : trace) (s : locals) : Prop :=
  ev_events s = WRITABLE /\
  0 <= bufptr s /\ 0 <= datasize s /\
  bufptr s + datasize s <= MAX_BUFSIZE /\
  bytes_at (buf s) (bufptr s) (datasize s) = unsent t /\
  Z.of_nat (length (unsent t)) = datasize s /\
  peer t = Some (insaddr s, insaddrlen s).

(** ** Progress of one echo *)

(** The state of the echo of datagram [B] received from [src], where [t]
    is the trace since the iteration that received it: [B] is at the
    start of the region, the cursor has advanced by exactly the bytes
    sent so far, [datasize] is what remains, and every [sendto] went to
    [src]. *)
Definition echo_progress (B : list byte) (src : sockaddr) (srclen : Z)
  (t : trace) (s : locals) : Prop :=
  insaddr s = src /\
  (ev_events s = WRITABLE -> insaddrlen s = srclen) /\
  firstn (length B) (buf s) = B /\
  0 <= bufptr s /\ 0 <= datasize s /\
  bufptr s + datasize s = Z.of_nat (length B) /\
  delivered t = firstn (Z.to_nat (bufptr s)) B /\
  Forall (eq (src, srclen)) (destinations t) /\
  (ev_events s = WRITABLE \/ (ev_events s = READABLE /\ datasize s = 0)).

(** ** Registered interest *)

(** Between iterations the interest registered with the kernel is the
    value of [ev.events], one of the two masks, and once a datagram has
    been received readable interest is only armed with [datasize] zero. *)
Definition in_step (t : trace) (s : locals) : Prop :=
  registered t = Some (ev_events s) /\
  (ev_events s = READABLE \/ ev_events s = WRITABLE) /\
  (call_in_trace is_datagram t = true -> ev_events s = READABLE ->
   datasize s = 0).

(** ** Agreement with the specification's state machine *)

(** The answer to [recvfrom], if consulted, is not an empty datagram. *)
Definition not_empty (E : iter_env) : Prop :=
  match i_recv E with
  | RecvOk payload _ _ => payload <> []
  | RecvErr _ => True
  end.

(** The interest registered with the kernel is the one the
    specification's machine asks for, and while that machine is in
    [AWAIT_WRITE] the number of bytes it still has to send is [datasize],
    which is not zero. *)
Definition agrees (t : trace) (s : locals) : Prop :=
  registered t = Some (ev_events s) /\
  ev_events s = interest_of (spec_phase t) /\
  (spec_phase t = AWAIT_WRITE ->
   snd (spec_run t) = datasize s /\ 0 < datasize s <= MAX_BUFSIZE).

(** ** Further observations on a trace *)

(** How many calls of some kind a trace holds. *)
Definition count_calls (kind : call -> bool) (t : trace) : nat :=
  length (filter kind t).

(** A readiness notification: an [epoll_wait] that returned an event. *)
Definition is_notification (c : call) : bool :=
  match c with C_epoll_wait _ _ _ (WaitReady _) => true | _ => false end.

(** A re-arm: an [epoll_ctl] with [EPOLL_CTL_MOD]. *)
Definition is_rearm (c : call) : bool :=
  match c with C_epoll_ctl _ op _ _ _ => op =? EPOLL_CTL_MOD | _ => false end.

Definition is_bind (c : call) : bool :=
  match c with C_bind _ _ _ _ _ => true | _ => false end.

Definition is_setsockopt (c : call) : bool :=
  match c with C_setsockopt _ _ _ _ _ => true | _ => false end.

(** The calls the loop can make: the four system calls of an iteration
    and the two messages of a fatal end. *)
Definition is_loop_call (c : call) : bool :=
  match c with
  | C_epoll_wait _ _ _ _ | C_recvfrom _ _ _ | C_sendto _ _ _ _ _
  | C_epoll_ctl _ _ _ _ _ | C_fprintf_location _ _ | C_perror _ _ => true
  | _ => false
  end.

(** No [setsockopt] is followed by a [bind]. *)
Fixpoint binds_before_options (t : trace) : bool :=
  match t with
  | [] => true
  | c :: t' =>
      if is_setsockopt c then forallb (fun c' => negb (is_bind c')) t'
      else binds_before_options t'
  end.

(** The answers of a socket that stays writable and whose [sendto] takes
    [m] bytes, for each [m] of a list. *)
Definition sends (ms : list Z) : list iter_env :=
  map (fun m => writable (ok m)) ms.

Definition total (ms : list Z) : Z := fold_right Z.add 0 ms.

(** A call of the loop made on the epoll descriptor [ep] and the socket
    [fd], with the arguments the source gives: one event slot and no
    timeout for [epoll_wait], [EPOLL_CTL_MOD] for [epoll_ctl],
    [MAX_BUFSIZE] bytes for [recvfrom]. *)
Definition on_descriptors (ep fd : Z) (c : call) : bool :=
  match c with
  | C_epoll_wait ep' maxevents timeout _ =>
      (ep' =? ep) && (maxevents =? 1) && (timeout =? -1)
  | C_epoll_ctl ep' op fd' _ _ =>
      (ep' =? ep) && (fd' =? fd) && (op =? EPOLL_CTL_MOD)
  | C_recvfrom fd' len _ => (fd' =? fd) && (len =? MAX_BUFSIZE)
  | C_sendto fd' _ _ _ _ => fd' =? fd
  | _ => false
  end.

(** The first check of the setup that does not pass, if any, read off the
    results of the calls in the order [main] makes them. *)
Definition first_failure (E : setup_env) : option site :=
  if negb (0 <=? rv (e_socket E)) then Some At_socket
  else if (rv (e_getfl E) =? -1) || (-1 =? rv (e_setfl E))
       then Some At_set_reuseport
  else if negb (0 <=? rv (e_bind E)) then Some At_bind
  else if negb (rv (e_setsockopt E) =? 0) then Some At_set_nonblock
  else if negb (0 <=? rv (e_epoll_create1 E)) then Some At_epoll_create1
  else if negb (rv (e_epoll_ctl_add E) =? 0) then Some At_epoll_ctl_add
  else None.

(** A trace that ends with a call checked at [w], immediately followed by
    the two messages of that check, with nothing written to the error
    stream before. *)
Definition fatal_end_at (w : site) (t : trace) : Prop :=
  exists pre c e,
    t = pre ++ c :: diag w e /\ guard c = Some w /\ stderr pre = [].

(** ** Closed forms of the loop's parts *)

Unset Implicit Arguments.

Ltac exec :=
  cbv [loop_body on_readable on_writable rearm setup set_nonblock
       set_reuseport sys_socket sys_fcntl_getfl sys_fcntl_setfl
       sys_setsockopt sys_bind sys_epoll_create1 sys_epoll_wait sys_recvfrom
       sys_sendto sys_epoll_ctl syscall note_errno ON_ERROR_PERROR_GOTO mbind
       mret
       emit read write goto_out fst snd app].

Ltac bools :=
  repeat match goal with
         | H : (_ =? _) = true |- _ => apply Z.eqb_eq in H
         | H : (_ =? _) = false |- _ => apply Z.eqb_neq in H
         | H : (_ <=? _) = true |- _ => apply Z.leb_le in H
         | H : (_ <=? _) = false |- _ => apply Z.leb_gt in H
         | H : (_ <? _) = true |- _ => apply Z.ltb_lt in H
         | H : (_ <? _) = false |- _ => apply Z.ltb_ge in H
         end.

Lemma mbind_Ok {A B} (m : M A) (k : A -> M B) s t a s' :
  m s = (t, Ok a s') -> mbind m k s = (t ++ fst (k a s'), snd (k a s')).
Proof. unfold mbind; intros ->; reflexivity. Qed.

Lemma mbind_Out {A B} (m : M A) (k : A -> M B) s t s' :
  m s = (t, Out s') -> mbind m k s = (t, Out s').
Proof. unfold mbind; intros ->; reflexivity. Qed.

Lemma mbind_inv {A B} (m : M A) (k : A -> M B) s t r :
  mbind m k s = (t, r) ->
  (exists s1, m s = (t, Out s1) /\ r = Out s1) \/
  (exists t1 a s1, m s = (t1, Ok a s1) /\
                   t = t1 ++ fst (k a s1) /\ r = snd (k a s1)).
Proof.
  unfold mbind. destruct (m s) as [t1 [a s1|s1]]; intros H.
  - right. exists t1, a, s1. inversion H; subst; auto.
  - left. exists s1. inversion H; subst; auto.
Qed.

Lemma on_readable_eq E s :
  on_readable E s =
  let s0 := set_insaddrlen SIZEOF_SOCKADDR s in
  let c := C_recvfrom (sockfd s) MAX_BUFSIZE (i_recv E) in
  match i_recv E with
  | RecvErr e =>
      if transient e
      then ([c], Ok tt (set_ev_events READABLE (set_errno e s0)))
      else (c :: diag At_recvfrom e,
            Out (set_ret EXIT_FAILURE (set_errno e s0)))
  | RecvOk payload src srclen =>
      let data := received MAX_BUFSIZE payload in
      ([c],
       Ok tt
         (set_ev_events WRITABLE
            (set_bufptr 0
               (set_datasize (wrap64 (Z.of_nat (length data)))
                  (set_insaddrlen srclen
                     (set_insaddr src
                        (set_buf (store_front (buf s) data) s0)))))))
  end.
Proof.
  destruct s as [er ep rt fd ia il ev bf bp ds]. exec.
  destruct (i_recv E) as [e|payload src srclen]; cbn.
  - unfold transient.
    destruct (e =? EINTR); [reflexivity|].
    destruct (e =? EAGAIN); reflexivity.
  - rewrite (proj2 (Z.ltb_ge _ 0)) by lia. reflexivity.
Qed.

Lemma on_writable_eq E s :
  on_writable E s =
  let r := rv (i_send E) in
  let e := errno_of (i_send E) in
  let c := C_sendto (sockfd s) (bytes_at (buf s) (bufptr s) (datasize s))
                    (insaddr s) (insaddrlen s) r in
  if r <? 0 then
    if transient e
    then ([c],
          Ok tt (set_ev_events (next_interest (datasize s)) (set_errno e s)))
    else (c :: diag At_sendto e, Out (set_ret EXIT_FAILURE (set_errno e s)))
  else
    ([c],
     Ok tt
       (set_ev_events (next_interest (wrap64 (datasize s - r)))
          (set_bufptr (bufptr s + r)
             (set_datasize (wrap64 (datasize s - r)) s)))).
Proof.
  destruct s as [er ep rt fd ia il ev bf bp ds]. exec.
  unfold transient, next_interest.
  destruct (rv (i_send E) <? 0) eqn:Hr; rewrite ?Hr; cbn.
  - destruct (errno_of (i_send E) =? EINTR); cbn.
    + destruct (ds =? 0); reflexivity.
    + destruct (errno_of (i_send E) =? EAGAIN); cbn.
      * destruct (ds =? 0); reflexivity.
      * apply Z.ltb_lt in Hr. rewrite (proj2 (Z.leb_gt 0 _)) by lia.
        reflexivity.
  - destruct (wrap64 (ds - rv (i_send E)) =? 0); reflexivity.
Qed.

Lemma rearm_eq E s :
  rearm E s =
  let r := rv (i_ctl E) in
  let c := C_epoll_ctl (epfd s) EPOLL_CTL_MOD (sockfd s) (ev_events s) r in
  let s1 := if r <? 0 then set_errno (errno_of (i_ctl E)) s else s in
  if r =? 0 then ([c], Ok tt s)
  else (c :: diag At_epoll_ctl_mod (errno s1), Out (set_ret EXIT_FAILURE s1)).
Proof.
  destruct s as [er ep rt fd ia il ev bf bp ds]. exec. cbn.
  destruct (rv (i_ctl E) <? 0) eqn:Hr; rewrite ?Hr.
  - apply Z.ltb_lt in Hr. rewrite (proj2 (Z.eqb_neq _ 0)) by lia.
    reflexivity.
  - destruct (rv (i_ctl E) =? 0); reflexivity.
Qed.

Lemma loop_body_eq E s :
  loop_body E s =
  let c := C_epoll_wait (epfd s) 1 (-1) (i_wait E) in
  match i_wait E with
  | WaitErr e =>
      if e =? EINTR then ([c], Ok tt (set_errno e s))
      else (c :: diag At_epoll_wait e,
            Out (set_ret EXIT_FAILURE (set_errno e s)))
  | WaitReady reported =>
      (c :: fst (dispatch reported E s), snd (dispatch reported E s))
  end.
Proof.
  unfold loop_body, dispatch.
  destruct (i_wait E) as [e|reported].
  - destruct s as [er ep rt fd ia il ev bf bp ds]. exec. cbn.
    destruct (e =? EINTR); reflexivity.
  - unfold sys_epoll_wait.
    cbv [mbind mret emit read write fst snd app]. cbn [Z.ltb Z.compare].
    reflexivity.
Qed.

(** ** The iterations that stay in the loop *)

Lemma rearm_Ok E s t s' :
  rearm E s = (t, Ok tt s') ->
  rv (i_ctl E) = 0 /\ t = [ctl_call s] /\ s' = s.
Proof.
  rewrite rearm_eq. cbv zeta.
  destruct (rv (i_ctl E) =? 0) eqn:Hr; intros H; inversion H; subst.
  apply Z.eqb_eq in Hr. unfold ctl_call. rewrite Hr. auto.
Qed.

Lemma rearm_run E s :
  rv (i_ctl E) = 0 -> rearm E s = ([ctl_call s], Ok tt s).
Proof.
  intros Hr. rewrite rearm_eq. cbv zeta. unfold ctl_call.
  rewrite Hr. reflexivity.
Qed.

Lemma then_rearm_Ok (m : M unit) E s t s' :
  mbind m (fun _ => rearm E) s = (t, Ok tt s') ->
  exists t1, m s = (t1, Ok tt s') /\ rv (i_ctl E) = 0 /\
             t = t1 ++ [ctl_call s'].
Proof.
  intros H. apply mbind_inv in H.
  destruct H as [(s1 & _ & H)|(t1 & [] & s1 & Hm & Ht & Hr)]; [discriminate|].
  destruct (rearm E s1) as [t2 r2] eqn:Hrearm. cbn in Ht, Hr. subst r2.
  apply rearm_Ok in Hrearm. destruct Hrearm as (H0 & -> & ->).
  exists t1. subst t. auto.
Qed.

Lemma loop_body_Ok E s t s' :
  loop_body E s = (t, Ok tt s') -> iteration E s t s'.
Proof.
  rewrite loop_body_eq. cbv zeta. fold (wait_call E s).
  destruct (i_wait E) as [e|reported] eqn:Hw.
  - destruct (e =? EINTR) eqn:He; intros H; inversion H; subst.
    apply Z.eqb_eq in He. subst e. now apply it_interrupted.
  - intros H. inversion H as [[Ht Hs]]. clear H.
    destruct (dispatch reported E s) as [td rd] eqn:Hd. cbn in *. subst rd.
    unfold dispatch in Hd. apply then_rearm_Ok in Hd.
    destruct Hd as (t1 & Hm & Hctl & ->).
    destruct (has_bits reported EPOLLIN) eqn:Hin;
      [|destruct (has_bits reported EPOLLOUT) eqn:Hout].
    + rewrite on_readable_eq in Hm. cbv zeta in Hm.
      fold (recv_call E s) in Hm.
      destruct (i_recv E) as [e|payload src srclen] eqn:Hrecv.
      * destruct (transient e) eqn:Htr; inversion Hm; subst.
        eapply it_recv_again; eauto.
      * inversion Hm; subst. eapply it_recv_ok; eauto.
    + rewrite on_writable_eq in Hm. cbv zeta in Hm.
      fold (send_call E s) in Hm.
      destruct (rv (i_send E) <? 0) eqn:Hr.
      * destruct (transient (errno_of (i_send E))) eqn:Htr;
          inversion Hm; subst.
        eapply it_send_again; eauto. lia.
      * inversion Hm; subst. eapply it_send_ok; eauto. lia.
    + inversion Hm; subst. eapply it_idle; eauto.
Qed.

Lemma iteration_loop_body E s t s' :
  iteration E s t s' -> loop_body E s = (t, Ok tt s').
Proof.
  intros H. rewrite loop_body_eq. cbv zeta. fold (wait_call E s).
  destruct H as [Hw|reported e Hw Hin Hrecv Htr Hctl s1
                |reported payload src srclen Hw Hin Hrecv Hctl s1
                |reported Hw Hin Hout Hr Htr Hctl s1
                |reported Hw Hin Hout Hr Hctl s1
                |reported Hw Hin Hout Hctl]; rewrite Hw.
  - reflexivity.
  - unfold dispatch. rewrite Hin.
    erewrite mbind_Ok
      by (rewrite on_readable_eq; cbv zeta; rewrite Hrecv, Htr; reflexivity).
    rewrite (rearm_run _ _ Hctl). unfold recv_call. rewrite ?Hrecv.
    reflexivity.
  - unfold dispatch. rewrite Hin.
    erewrite mbind_Ok
      by (rewrite on_readable_eq; cbv zeta; rewrite Hrecv; reflexivity).
    rewrite (rearm_run _ _ Hctl). unfold recv_call. rewrite ?Hrecv.
    reflexivity.
  - unfold dispatch. rewrite Hin, Hout.
    erewrite mbind_Ok
      by (rewrite on_writable_eq; cbv zeta;
          rewrite (proj2 (Z.ltb_lt _ 0)) by lia; rewrite Htr; reflexivity).
    rewrite (rearm_run _ _ Hctl). unfold recv_call. rewrite ?Hrecv.
    reflexivity.
  - unfold dispatch. rewrite Hin, Hout.
    erewrite mbind_Ok
      by (rewrite on_writable_eq; cbv zeta;
          rewrite (proj2 (Z.ltb_ge _ 0)) by lia; reflexivity).
    rewrite (rearm_run _ _ Hctl). unfold recv_call. rewrite ?Hrecv.
    reflexivity.
  - unfold dispatch. rewrite Hin, Hout.
    erewrite mbind_Ok by reflexivity.
    rewrite (rearm_run _ _ Hctl). unfold recv_call. rewrite ?Hrecv.
    reflexivity.
Qed.

(** ** Setup *)

Lemma mbind_Ok_inv {A B} (m : M A) (k : A -> M B) s t b s' :
  mbind m k s = (t, Ok b s') ->
  exists t1 a s1 t2,
    m s = (t1, Ok a s1) /\ k a s1 = (t2, Ok b s') /\ t = t1 ++ t2.
Proof.
  intros H. apply mbind_inv in H.
  destruct H as [(s1 & _ & H)|(t1 & a & s1 & Hm & Ht & Hr)]; [discriminate|].
  exists t1, a, s1, (fst (k a s1)). rewrite Hr, <- surjective_pairing. auto.
Qed.

Lemma mbind_Out_inv {A B} (m : M A) (k : A -> M B) s t s' :
  mbind m k s = (t, Out s') ->
  m s = (t, Out s') \/
  exists t1 a s1 t2,
    m s = (t1, Ok a s1) /\ k a s1 = (t2, Out s') /\ t = t1 ++ t2.
Proof.
  intros H. apply mbind_inv in H.
  destruct H as [(s1 & Hm & H)|(t1 & a & s1 & Hm & Ht & Hr)].
  - left. inversion H; subst. exact Hm.
  - right. exists t1, a, s1, (fst (k a s1)).
    rewrite Hr, <- surjective_pairing. auto.
Qed.

(** Evaluate the first action of a sequence. *)
Ltac eval_in H :=
  cbv [set_nonblock set_reuseport sys_socket sys_fcntl_getfl sys_fcntl_setfl
       sys_setsockopt sys_bind sys_epoll_create1 sys_epoll_ctl syscall
       ON_ERROR_PERROR_GOTO mbind mret emit read write goto_out fst snd app]
    in H;
  repeat match type of H with
         | context [if ?c then _ else _] =>
             let Hc := fresh "Hc" in destruct c eqn:Hc
         end;
  inversion H; subst; clear H.

Ltac step_Ok H :=
  let Hm := fresh "Hm" in
  apply mbind_Ok_inv in H;
  destruct H as (? & ? & ? & ? & Hm & H & ->);
  eval_in Hm.

Ltac step_Out H :=
  let Hm := fresh "Hm" in
  apply mbind_Out_inv in H;
  destruct H as [Hm|(? & ? & ? & ? & Hm & H & ->)];
  [eval_in Hm|eval_in Hm].

Ltac ne := unfold note_errno; destruct (_ <? _); reflexivity.

Lemma ne_epfd r s : epfd (note_errno r s) = epfd s.
Proof. ne. Qed.
Lemma ne_ret r s : ret (note_errno r s) = ret s.
Proof. ne. Qed.
Lemma ne_sockfd r s : sockfd (note_errno r s) = sockfd s.
Proof. ne. Qed.
Lemma ne_insaddr r s : insaddr (note_errno r s) = insaddr s.
Proof. ne. Qed.
Lemma ne_insaddrlen r s : insaddrlen (note_errno r s) = insaddrlen s.
Proof. ne. Qed.
Lemma ne_ev_events r s : ev_events (note_errno r s) = ev_events s.
Proof. ne. Qed.
Lemma ne_buf r s : buf (note_errno r s) = buf s.
Proof. ne. Qed.
Lemma ne_bufptr r s : bufptr (note_errno r s) = bufptr s.
Proof. ne. Qed.
Lemma ne_datasize r s : datasize (note_errno r s) = datasize s.
Proof. ne. Qed.

Create Rewrite HintDb fields.
#[local] Hint Rewrite ne_epfd ne_ret ne_sockfd ne_insaddr ne_insaddrlen
  ne_ev_events ne_buf ne_bufptr ne_datasize : fields.

Ltac fields :=
  repeat (progress
            (autorewrite with fields in *;
             cbn [errno epfd ret sockfd insaddr insaddrlen ev_events buf
                  bufptr datasize set_errno set_epfd set_ret set_sockfd
                  set_insaddr set_insaddrlen set_ev_events set_buf set_bufptr
                  set_datasize] in *)).

Lemma setup_Ok E s t s' :
  setup E s = (t, Ok tt s') ->
  let fd := rv (e_socket E) in
  let fl := rv (e_getfl E) in
  let ep := rv (e_epoll_create1 E) in
  t = [C_socket AF_INET SOCK_DGRAM 0 fd;
       C_fcntl_getfl fd fl;
       C_fcntl_setfl fd (Z.lor fl O_NONBLOCK) (rv (e_setfl E));
       C_bind fd AF_INET (htons 5123) "127.0.0.1" (rv (e_bind E));
       C_setsockopt fd SOL_SOCKET SO_REUSEPORT 1 0;
       C_epoll_create1 0 ep;
       C_epoll_ctl ep EPOLL_CTL_ADD fd READABLE 0] /\
  0 <= fd /\ 0 <= ep /\ rv (e_setfl E) <> -1 /\
  sockfd s' = fd /\ epfd s' = ep /\ ev_events s' = READABLE /\
  ret s' = ret s /\ buf s' = buf s.
Proof.
  unfold setup. intros H.
  do 14 step_Ok H; eval_in H; try discriminate.
  bools. cbn [app].
  repeat match goal with Hz : rv _ = 0 |- _ => rewrite Hz in * end.
  fields. cbv zeta. repeat split; auto; congruence.
Qed.

Lemma fatal_end_base c w e : guard c = Some w -> fatal_end (c :: diag w e).
Proof. intros H. exists [], c, w, e. auto. Qed.

Lemma fatal_end_cons c t : is_stderr c = false -> fatal_end t -> fatal_end (c :: t).
Proof.
  intros Hc (pre & c0 & w & e & -> & Hg & Hpre).
  exists (c :: pre), c0, w, e. repeat split; auto.
  unfold stderr in *. cbn. rewrite Hc. exact Hpre.
Qed.

Lemma fatal_end_app t1 t2 : stderr t1 = [] -> fatal_end t2 -> fatal_end (t1 ++ t2).
Proof.
  intros H1 (pre & c0 & w & e & -> & Hg & Hpre).
  exists (t1 ++ pre), c0, w, e. rewrite app_assoc. repeat split; auto.
  unfold stderr in *. rewrite filter_app, H1, Hpre. reflexivity.
Qed.

Ltac fatal_end_at w := apply (fatal_end_base _ w); reflexivity.

Ltac fatal_end_tac :=
  repeat first [ fatal_end_at At_socket | fatal_end_at At_set_reuseport
               | fatal_end_at At_bind | fatal_end_at At_set_nonblock
               | fatal_end_at At_epoll_create1 | fatal_end_at At_epoll_ctl_add
               | fatal_end_at At_epoll_wait | fatal_end_at At_recvfrom
               | fatal_end_at At_sendto | fatal_end_at At_epoll_ctl_mod
               | apply fatal_end_cons; [reflexivity|] ].

Lemma setup_Out E s t s' :
  setup E s = (t, Out s') ->
  epfd s = -1 ->
  ret s' = EXIT_FAILURE /\ fatal_end t /\ opened t = held s' /\
  closed t = [] /\ allocations t = 0%nat /\ releases t = 0%nat.
Proof.
  unfold setup. intros Hsetup Hep.
  repeat step_Out Hsetup; try eval_in Hsetup; try discriminate;
    cbn [app]; (split; [|split; [fatal_end_tac|]]);
    unfold held; fields; cbn; rewrite ?Hep; cbn;
    repeat match goal with Hz : (_ <=? _) = _ |- _ => rewrite Hz end;
    repeat split; reflexivity.
Qed.

(** ** The loop *)

Lemma iteration_frame E s t s' :
  iteration E s t s' ->
  quiet t /\ sockfd s' = sockfd s /\ epfd s' = epfd s /\ ret s' = ret s.
Proof.
  intros H. destruct H; subst; unfold quiet; cbn; auto 10.
Qed.

Lemma loop_body_Out E s t s' :
  loop_body E s = (t, Out s') ->
  ret s' = EXIT_FAILURE /\ sockfd s' = sockfd s /\ epfd s' = epfd s /\
  fatal_end t /\ opened t = [] /\ closed t = [] /\
  allocations t = 0%nat /\ releases t = 0%nat.
Proof.
  rewrite loop_body_eq. cbv zeta.
  destruct (i_wait E) as [e|reported] eqn:Hw.
  - destruct (e =? EINTR) eqn:He; intros H; inversion H; subst.
    cbn. repeat split; auto. fatal_end_tac.
  - intros H. inversion H as [[Ht Hs]]. clear H.
    destruct (dispatch reported E s) as [td rd] eqn:Hd. cbn in *. subst rd.
    unfold dispatch in Hd. apply mbind_Out_inv in Hd.
    destruct Hd as [Hm|(t1 & [] & s1 & t2 & Hm & Hr & ->)].
    + destruct (has_bits reported EPOLLIN);
        [|destruct (has_bits reported EPOLLOUT)].
      * rewrite on_readable_eq in Hm. cbv zeta in Hm.
        destruct (i_recv E) as [e|payload src srclen];
          [destruct (transient e)|]; inversion Hm; subst.
        cbn. repeat split; auto. fatal_end_tac.
      * rewrite on_writable_eq in Hm. cbv zeta in Hm.
        destruct (rv (i_send E) <? 0);
          [destruct (transient (errno_of (i_send E)))|]; inversion Hm; subst.
        cbn. repeat split; auto. fatal_end_tac.
      * inversion Hm.
    + rewrite rearm_eq in Hr. cbv zeta in Hr.
      destruct (rv (i_ctl E) =? 0); inversion Hr; subst. clear Hr.
      assert (Hq : stderr t1 = [] /\ opened t1 = [] /\ closed t1 = [] /\
                   allocations t1 = 0%nat /\ releases t1 = 0%nat /\
                   sockfd s1 = sockfd s /\ epfd s1 = epfd s).
      { destruct (has_bits reported EPOLLIN);
          [|destruct (has_bits reported EPOLLOUT)].
        - rewrite on_readable_eq in Hm. cbv zeta in Hm.
          destruct (i_recv E) as [e|payload src srclen];
            [destruct (transient e)|]; inversion Hm; subst; cbn; auto 10.
        - rewrite on_writable_eq in Hm. cbv zeta in Hm.
          destruct (rv (i_send E) <? 0);
            [destruct (transient (errno_of (i_send E)))|];
            inversion Hm; subst; cbn; auto 10.
        - inversion Hm; subst; cbn; auto 10. }
      destruct Hq as (Q1 & Q2 & Q3 & Q4 & Q5 & Q6 & Q7).
      assert (Hfd : forall (b : bool) x,
                 sockfd (if b then set_errno x s1 else s1) = sockfd s1 /\
                 epfd (if b then set_errno x s1 else s1) = epfd s1)
        by (intros [] x; auto).
      destruct (Hfd (rv (i_ctl E) <? 0) (errno_of (i_ctl E))) as [F1 F2].
      cbn [ret sockfd epfd set_ret]. rewrite F1, F2.
      repeat split; auto; try congruence.
      * change (fatal_end ((C_epoll_wait (epfd s) 1 (-1) (WaitReady reported)
                            :: t1) ++
                           C_epoll_ctl (epfd s1) EPOLL_CTL_MOD (sockfd s1)
                             (ev_events s1) (rv (i_ctl E))
                           :: diag At_epoll_ctl_mod
                                (errno (if rv (i_ctl E) <? 0
                                        then set_errno (errno_of (i_ctl E)) s1
                                        else s1)))).
        apply fatal_end_app; [cbn; exact Q1|fatal_end_tac].
      * unfold opened in *. cbn. rewrite flat_map_app, Q2. reflexivity.
      * unfold closed in *. cbn. rewrite flat_map_app, Q3. reflexivity.
      * unfold allocations in *. cbn. rewrite filter_app, length_app, Q4.
        reflexivity.
      * unfold releases in *. cbn. rewrite filter_app, length_app, Q5.
        reflexivity.
Qed.

Lemma event_loop_Ok_inv E es s t s' :
  event_loop (E :: es) s = (t, Ok tt s') ->
  exists t1 s1 t2,
    iteration E s t1 s1 /\ event_loop es s1 = (t2, Ok tt s') /\ t = t1 ++ t2.
Proof.
  cbn [event_loop]. intros H. apply mbind_Ok_inv in H.
  destruct H as (t1 & [] & s1 & t2 & Hm & Hk & ->).
  exists t1, s1, t2. auto using loop_body_Ok.
Qed.

Lemma event_loop_Out_inv es s t s' :
  event_loop es s = (t, Out s') ->
  exists es1 E es2 t1 s1 t2,
    es = es1 ++ E :: es2 /\ event_loop es1 s = (t1, Ok tt s1) /\
    loop_body E s1 = (t2, Out s') /\ t = t1 ++ t2.
Proof.
  revert s t. induction es as [|E es IH]; intros s t H.
  - inversion H.
  - cbn [event_loop] in H. apply mbind_Out_inv in H.
    destruct H as [Hm|(t1 & [] & s1 & t2 & Hm & Hk & ->)].
    + exists [], E, es, [], s, t. auto.
    + apply IH in Hk.
      destruct Hk as (es1 & E' & es2 & u1 & s2 & u2 & -> & H1 & H2 & ->).
      exists (E :: es1), E', es2, (t1 ++ u1), s2, u2.
      split; [reflexivity|]. split; [|split; [exact H2|apply app_assoc]].
      cbn [event_loop]. erewrite mbind_Ok by eassumption.
      rewrite H1. reflexivity.
Qed.

(** A property of the trace so far and the state that every iteration
    preserves holds whenever the program is between two iterations.  [Q]
    restricts the answers considered. *)
Lemma event_loop_invariant (I : trace -> locals -> Prop)
  (Q : iter_env -> Prop) :
  (forall t0 s E t s',
      I t0 s -> env_ok s E = true -> Q E -> iteration E s t s' ->
      I (t0 ++ t) s') ->
  forall es t0 s t s',
    I t0 s -> script_ok s es = true -> Forall Q es ->
    event_loop es s = (t, Ok tt s') -> I (t0 ++ t) s'.
Proof.
  intros Hstep. induction es as [|E es IH]; intros t0 s t s' HI Hok HQ H.
  - inversion H; subst. rewrite app_nil_r. exact HI.
  - apply event_loop_Ok_inv in H.
    destruct H as (t1 & s1 & t2 & Hit & Hrest & ->).
    cbn [script_ok] in Hok. apply andb_prop in Hok. destruct Hok as [Hok1 Hok2].
    rewrite (iteration_loop_body _ _ _ _ Hit) in Hok2. cbn in Hok2.
    inversion HQ; subst.
    rewrite app_assoc. eapply IH; eauto.
Qed.

Lemma Forall_any (es : list iter_env) : Forall (fun _ => True) es.
Proof. apply Forall_forall. auto. Qed.

Lemma main_Looping junk E es t s :
  main junk E es = (t, Looping s) ->
  e_malloc E = true /\
  exists t1 s1 t2,
    setup E (set_ret EXIT_SUCCESS (set_epfd (-1) junk)) = (t1, Ok tt s1) /\
    event_loop es s1 = (t2, Ok tt s) /\
    t = C_malloc MAX_BUFSIZE true :: t1 ++ t2.
Proof.
  unfold main. destruct (e_malloc E); cbn [negb]; [|discriminate].
  destruct (mbind _ _ _) as [t0 [[] s0|s0]] eqn:Hrun; intros H.
  - inversion H; subst. split; [reflexivity|].
    apply mbind_Ok_inv in Hrun.
    destruct Hrun as (t1 & [] & s1 & t2 & Hm & Hk & ->).
    exists t1, s1, t2. auto.
  - destruct (teardown s0). discriminate.
Qed.

Lemma main_Exited junk E es t code :
  main junk E es = (t, Exited code) ->
  (e_malloc E = false /\ code = EXIT_FAILURE /\
   t = [C_malloc MAX_BUFSIZE false; C_fprintf_alloc MAX_BUFSIZE]) \/
  (e_malloc E = true /\
   exists t1 s,
     (setup E ;;; event_loop es) (set_ret EXIT_SUCCESS (set_epfd (-1) junk))
     = (t1, Out s) /\
     t = C_malloc MAX_BUFSIZE true :: t1 ++ fst (teardown s) /\
     code = ret s).
Proof.
  unfold main. destruct (e_malloc E); cbn [negb].
  - destruct (mbind _ _ _) as [t0 [[] s0|s0]] eqn:Hrun; intros H.
    + discriminate.
    + right. split; [reflexivity|]. exists t0, s0.
      cbn in H. inversion H; subst. auto.
  - intros H. inversion H; subst. left. auto.
Qed.

Lemma event_loop_app_Ok es1 es2 s t1 s1 :
  event_loop es1 s = (t1, Ok tt s1) ->
  event_loop (es1 ++ es2) s =
  (t1 ++ fst (event_loop es2 s1), snd (event_loop es2 s1)).
Proof.
  revert s t1. induction es1 as [|E es1 IH]; intros s t1 H.
  - inversion H; subst. cbn. apply surjective_pairing.
  - cbn [event_loop app] in *. apply mbind_Ok_inv in H.
    destruct H as (u1 & [] & s2 & u2 & Hm & Hk & ->).
    erewrite mbind_Ok by eassumption.
    rewrite (IH _ _ Hk). cbn [fst snd]. rewrite app_assoc. reflexivity.
Qed.

(** A run that is between two iterations continues with the answers that
    follow. *)
Lemma main_continue junk E0 pre post t s :
  main junk E0 pre = (t, Looping s) ->
  main junk E0 (pre ++ post) =
  match event_loop post s with
  | (t', Ok _ s') => (t ++ t', Looping s')
  | (t', Out s') => (t ++ t' ++ fst (teardown s'), Exited (ret s'))
  end.
Proof.
  intros H. apply main_Looping in H.
  destruct H as (Hmalloc & t1 & s1 & t2 & Hsetup & Hloop & ->).
  unfold main. rewrite Hmalloc. cbn [negb].
  erewrite mbind_Ok by eassumption.
  rewrite (event_loop_app_Ok _ post _ _ _ Hloop).
  destruct (event_loop post s) as [t' [[] s'|s']]; cbn [fst snd teardown].
  - rewrite app_assoc. reflexivity.
  - cbn [app]. rewrite <- !app_assoc. reflexivity.
Qed.

Lemma quiet_app t1 t2 : quiet t1 -> quiet t2 -> quiet (t1 ++ t2).
Proof.
  unfold quiet, opened, closed, stderr, allocations, releases.
  intros (A1 & A2 & A3 & A4 & A5) (B1 & B2 & B3 & B4 & B5).
  rewrite !flat_map_app, !filter_app, !length_app.
  rewrite A1, A2, A3, A4, A5, B1, B2, B3, B4, B5. auto.
Qed.

Lemma event_loop_frame es s t s' :
  event_loop es s = (t, Ok tt s') ->
  quiet t /\ sockfd s' = sockfd s /\ epfd s' = epfd s /\ ret s' = ret s.
Proof.
  revert s t. induction es as [|E es IH]; intros s t H.
  - inversion H; subst. unfold quiet. cbn. auto 10.
  - apply event_loop_Ok_inv in H.
    destruct H as (t1 & s1 & t2 & Hit & Hrest & ->).
    apply iteration_frame in Hit. apply IH in Hrest.
    destruct Hit as (Q1 & F1 & F2 & F3), Hrest as (Q2 & G1 & G2 & G3).
    repeat split; try congruence; apply quiet_app; assumption.
Qed.

(** How [goto out] is reached, whether from the setup or from the loop. *)
Lemma run_Out E es s t s' :
  (setup E ;;; event_loop es) s = (t, Out s') ->
  epfd s = -1 ->
  ret s' = EXIT_FAILURE /\ fatal_end t /\ opened t = held s' /\
  closed t = [] /\ allocations t = 0%nat /\ releases t = 0%nat.
Proof.
  intros H Hep. apply mbind_Out_inv in H.
  destruct H as [H|(t1 & [] & s1 & t2 & Hsetup & Hloop & ->)].
  - eapply setup_Out; eauto.
  - apply setup_Ok in Hsetup. cbv zeta in Hsetup.
    destruct Hsetup as (Ht1 & Hfd & Hepfd & _ & Hs1 & Hs2 & _).
    apply event_loop_Out_inv in Hloop.
    destruct Hloop as (es1 & E' & es2 & u1 & s2 & u2 & _ & H1 & H2 & ->).
    apply event_loop_frame in H1. destruct H1 as (Q & F1 & F2 & _).
    apply loop_body_Out in H2.
    destruct H2 as (R & G1 & G2 & Hfatal & O & C & A & F).
    destruct Q as (Q1 & Q2 & Q3 & Q4 & Q5).
    split; [exact R|]. split.
    { apply fatal_end_app; [subst t1; reflexivity|].
      apply fatal_end_app; assumption. }
    unfold opened, closed, allocations, releases, held in *.
    rewrite !flat_map_app, !filter_app, !length_app.
    rewrite Q1, Q2, Q4, Q5, O, C, A, F, G1, G2, F1, F2, Hs1, Hs2.
    subst t1. cbn.
    rewrite (proj2 (Z.leb_le 0 _) Hfd), (proj2 (Z.leb_le 0 _) Hepfd).
    auto.
Qed.

(** * The claims *)

(** ** Readiness wait *)

(** C6. If [epoll_wait] fails with [EINTR], the iteration consists of that
    call alone: nothing is received, sent or re-armed, no variable of
    [main] changes ([errno] holds [EINTR]), the program is in the loop
    again and whatever comes next starts with another [epoll_wait].  If it
    fails with any other error, the two messages for [epoll_wait] are
    written, the remaining answers are never consulted, and [main] runs
    the code at [out] and returns [EXIT_FAILURE]. *)
Theorem wait_failure_retries_or_aborts junk E0 pre E post t s e :
  main junk E0 pre = (t, Looping s) ->
  i_wait E = WaitErr e ->
  (e = EINTR ->
   main junk E0 (pre ++ [E]) = (t ++ [wait_call E s], Looping (set_errno e s))
   /\ forall E', exists rest,
        fst (loop_body E' (set_errno e s)) = wait_call E' s :: rest) /\
  (e <> EINTR ->
   main junk E0 (pre ++ E :: post) =
   (t ++ (wait_call E s :: diag At_epoll_wait e) ++ fst (teardown s),
    Exited EXIT_FAILURE)).
Proof.
  intros Hmain Hw. split; intros He.
  - split.
    + rewrite (main_continue _ _ _ [E] _ _ Hmain). cbn [event_loop].
      erewrite mbind_Ok.
      2:{ apply iteration_loop_body. subst e. apply it_interrupted.
          exact Hw. }
      cbn. subst e. reflexivity.
    + intros E'. rewrite loop_body_eq. cbv zeta.
      unfold wait_call.
      destruct (i_wait E'); [destruct (_ =? _)|]; cbn; eauto.
  - rewrite (main_continue _ _ _ (E :: post) _ _ Hmain). cbn [event_loop].
    erewrite mbind_Out.
    2:{ rewrite loop_body_eq. cbv zeta. rewrite Hw.
        rewrite (proj2 (Z.eqb_neq e EINTR) He). reflexivity. }
    unfold wait_call. rewrite Hw. cbn. reflexivity.
Qed.

Lemma wait_failure_retries_or_aborts_witness :
  exists t s,
    main junk0 setup_fine [] = (t, Looping s) /\
    main junk0 setup_fine ([] ++ [wait_fails EINTR]) =
    (t ++ [wait_call (wait_fails EINTR) s], Looping (set_errno EINTR s)) /\
    main junk0 setup_fine ([] ++ wait_fails 9 :: [readable (RecvErr 9)]) =
    (t ++ (wait_call (wait_fails 9) s :: diag At_epoll_wait 9) ++
     fst (teardown s), Exited EXIT_FAILURE).
Proof.
  eexists; eexists. split; [reflexivity|]. split.
  - apply (wait_failure_retries_or_aborts
             junk0 setup_fine [] (wait_fails EINTR) [] _ _ EINTR);
      reflexivity.
  - apply (wait_failure_retries_or_aborts
             junk0 setup_fine [] (wait_fails 9) [readable (RecvErr 9)]
             _ _ 9); [reflexivity|reflexivity|discriminate].
Defined.

(** ** Setup *)

Lemma land_lor_absorb a b : Z.land (Z.lor a b) b = b.
Proof.
  apply Z.bits_inj'. intros n _.
  rewrite Z.land_spec, Z.lor_spec.
  destruct (Z.testbit a n), (Z.testbit b n); reflexivity.
Qed.

(** C7. [set_nonblock] makes one call, [setsockopt] with [SO_REUSEPORT],
    and [set_reuseport] makes the two [fcntl] calls that add [O_NONBLOCK]
    to the file status flags (the second only when the first has not
    returned -1): each does what the other is named after.  After a
    successful setup the socket has the [SO_REUSEPORT] option switched on
    and [O_NONBLOCK] among its status flags. *)
Theorem swapped_names_both_properties_set E s t s' :
  setup E s = (t, Ok tt s') ->
  (forall fd s0,
      fst (set_nonblock E fd s0) =
      [C_setsockopt fd SOL_SOCKET SO_REUSEPORT 1 (rv (e_setsockopt E))]) /\
  (forall fd s0,
      fst (set_reuseport E fd s0) =
      C_fcntl_getfl fd (rv (e_getfl E)) ::
      (if rv (e_getfl E) =? -1 then []
       else [C_fcntl_setfl fd (Z.lor (rv (e_getfl E)) O_NONBLOCK)
               (rv (e_setfl E))])) /\
  reuseport (sockfd s') t = true /\
  nonblocking (sockfd s') t = true.
Proof.
  intros H. split; [|split].
  - intros fd s0. reflexivity.
  - intros fd s0. unfold set_reuseport, sys_fcntl_getfl, sys_fcntl_setfl.
    cbv [syscall mbind mret emit write fst snd app].
    destruct (rv (e_getfl E) =? -1); [reflexivity|].
    cbv [mbind fst snd app].
    destruct (-1 =? rv (e_setfl E)); reflexivity.
  - apply setup_Ok in H. cbv zeta in H.
    destruct H as (-> & _ & _ & Hsetfl & -> & _).
    unfold reuseport, nonblocking, status_flags. cbn.
    rewrite !Z.eqb_refl. cbn.
    rewrite (proj2 (Z.eqb_neq _ _) Hsetfl). cbn.
    unfold has_bits. rewrite land_lor_absorb. auto.
Qed.

Lemma swapped_names_both_properties_set_witness :
  exists t s',
    setup setup_fine junk0 = (t, Ok tt s') /\
    reuseport (sockfd s') t = true /\ nonblocking (sockfd s') t = true.
Proof.
  eexists; eexists. split; [reflexivity|].
  apply (swapped_names_both_properties_set setup_fine junk0). reflexivity.
Defined.

(** ** Teardown *)

(** C9. Whenever [main] returns, every descriptor that [socket] or
    [epoll_create1] handed out has been closed (and nothing else has), and
    the region has been released if it was allocated. *)
Theorem exit_releases_everything junk E es t code :
  main junk E es = (t, Exited code) ->
  Permutation (opened t) (closed t) /\ releases t = allocations t.
Proof.
  intros H. apply main_Exited in H.
  destruct H as [(_ & _ & ->)|(_ & t1 & s & Hrun & -> & _)].
  - cbn. auto.
  - apply run_Out in Hrun; [|reflexivity].
    destruct Hrun as (_ & _ & Ho & Hc & Ha & Hr).
    unfold opened, closed, allocations, releases, held in *.
    cbn [flat_map filter app length teardown fst].
    rewrite !flat_map_app, !filter_app, !length_app, Ho, Hc, Ha, Hr.
    destruct (0 <=? epfd s), (0 <=? sockfd s); cbn; auto using perm_swap.
Qed.

Lemma exit_releases_everything_witness :
  exists t,
    main junk0 setup_fine [wait_fails 9] = (t, Exited EXIT_FAILURE) /\
    Permutation (opened t) (closed t) /\ releases t = allocations t.
Proof.
  eexists. split; [reflexivity|].
  apply (exit_releases_everything junk0 setup_fine [wait_fails 9] _
           EXIT_FAILURE).
  reflexivity.
Defined.

(** ** Diagnostics *)

Lemma guard_not_stderr c w : guard c = Some w -> is_stderr c = false.
Proof. destruct c; cbn; congruence. Qed.

Lemma stderr_teardown s : stderr (fst (teardown s)) = [].
Proof.
  unfold teardown, stderr. cbn [fst].
  destruct (0 <=? epfd s), (0 <=? sockfd s); reflexivity.
Qed.

(** C8, as amended.  Whenever [main] returns, it returns [EXIT_FAILURE],
    never [EXIT_SUCCESS].  If the region could not be allocated the error
    stream holds the single message about the allocation.  Otherwise it
    holds exactly the two messages of one expansion of
    [ON_ERROR_PERROR_GOTO]: the one naming the function [main] and the
    line of the expansion, and the one from [perror]; they come right
    after the call whose result that expansion checks. *)
Theorem fatal_exit_status_and_diagnostic junk E es t code :
  main junk E es = (t, Exited code) ->
  code = EXIT_FAILURE /\ code <> EXIT_SUCCESS /\
  (if e_malloc E
   then exists pre c w e post,
       t = pre ++ c :: diag w e ++ post /\ guard c = Some w /\
       stderr t = [C_fprintf_location "main" (site_line w);
                   C_perror (site_label w) e]
   else stderr t = [C_fprintf_alloc MAX_BUFSIZE]).
Proof.
  intros H. apply main_Exited in H.
  destruct H as [(-> & -> & ->)|(-> & t1 & s & Hrun & -> & ->)].
  - repeat split; try discriminate; reflexivity.
  - apply run_Out in Hrun; [|reflexivity].
    destruct Hrun as (-> & (pre & c & w & e & -> & Hg & Hpre) & _).
    split; [reflexivity|]. split; [discriminate|]. cbv iota.
    exists (C_malloc MAX_BUFSIZE true :: pre), c, w, e, (fst (teardown s)).
    split; [|split; [exact Hg|]].
    + cbn. rewrite <- app_assoc. reflexivity.
    + unfold stderr in *. cbn [filter is_stderr].
      rewrite !filter_app, Hpre. cbn [filter app].
      rewrite (guard_not_stderr _ _ Hg).
      pose proof (stderr_teardown s) as Ht. unfold stderr in Ht.
      rewrite Ht. reflexivity.
Qed.

Lemma fatal_exit_status_and_diagnostic_witness :
  exists t,
    main junk0 setup_fine [writable (ok 0); wait_fails 9]
    = (t, Exited EXIT_FAILURE) /\
    EXIT_FAILURE = EXIT_FAILURE /\ EXIT_FAILURE <> EXIT_SUCCESS /\
    exists pre c w e post,
      t = pre ++ c :: diag w e ++ post /\ guard c = Some w /\
      stderr t = [C_fprintf_location "main" (site_line w);
                  C_perror (site_label w) e].
Proof.
  eexists. split; [vm_compute; reflexivity|].
  apply (fatal_exit_status_and_diagnostic
           junk0 setup_fine [writable (ok 0); wait_fails 9] _ EXIT_FAILURE).
  vm_compute; reflexivity.
Defined.

(** C8, as stated, fails when [malloc] returns [NULL]: [main] returns
    [EXIT_FAILURE] after a message that names neither a function nor a
    line. *)
Lemma allocation_failure_is_not_located :
  main junk0 setup_nomem [] =
  ([C_malloc MAX_BUFSIZE false; C_fprintf_alloc MAX_BUFSIZE],
   Exited EXIT_FAILURE) /\
  ~ every_fatal_end_is_located.
Proof.
  split; [reflexivity|].
  intros H.
  destruct (H junk0 setup_nomem [] _ _ eq_refl)
    as (_ & func & line & label & e & Hs).
  discriminate Hs.
Qed.

(** ** Empty datagrams *)

Lemma wrap64_small z : 0 <= z < 18446744073709551616 -> wrap64 z = z.
Proof. intros H. unfold wrap64. apply Z.mod_small. exact H. Qed.



(** ** Transient failures *)

(** A [recvfrom] that fails with [EINTR] or [EAGAIN] leaves [datasize],
    the cursor, the region and the saved address as they were, and readable
    interest is armed again. *)
Lemma transient_recv_frame E s t s' e :
  iteration E s t s' -> i_recv E = RecvErr e ->
  call_in_trace is_recvfrom t = true ->
  datasize s' = datasize s /\ bufptr s' = bufptr s /\ buf s' = buf s /\
  insaddr s' = insaddr s /\ ev_events s' = READABLE /\
  registered t = Some READABLE.
Proof.
  intros H Hrecv Hcall.
  destruct H; subst; try discriminate; try congruence.
  cbn. auto 10.
Qed.

(** A [sendto] that fails with [EINTR] or [EAGAIN] leaves [datasize], the
    cursor, the region and the saved address as they were; writable
    interest is armed again if [datasize] is not zero. *)
Lemma transient_send_frame E s t s' :
  iteration E s t s' -> rv (i_send E) < 0 ->
  call_in_trace is_sendto t = true ->
  datasize s' = datasize s /\ bufptr s' = bufptr s /\ buf s' = buf s /\
  insaddr s' = insaddr s /\ insaddrlen s' = insaddrlen s /\
  ev_events s' = next_interest (datasize s) /\
  registered t = Some (next_interest (datasize s)).
Proof.
  intros H Hsend Hcall.
  destruct H; subst; try discriminate; try lia.
  cbn. auto 10.
Qed.

(** C5 fails on the program when the datagram being sent back is empty:
    after [sendto] has failed with [EAGAIN], [datasize] is 0, so readable
    interest is armed although nothing has been sent; the program waits
    for the next datagram and the empty one is never echoed. *)
Theorem transient_send_failure_drops_empty_echo :
  exists s,
    main junk0 setup_fine
         [readable (RecvOk [] client 16); writable (failed EAGAIN)]
    = ([C_malloc 1472 true;
        C_socket AF_INET SOCK_DGRAM 0 3;
        C_fcntl_getfl 3 2; C_fcntl_setfl 3 2050 0;
        C_bind 3 AF_INET 788 "127.0.0.1" 0;
        C_setsockopt 3 SOL_SOCKET SO_REUSEPORT 1 0;
        C_epoll_create1 0 4;
        C_epoll_ctl 4 EPOLL_CTL_ADD 3 READABLE 0;
        C_epoll_wait 4 1 (-1) (WaitReady EPOLLIN);
        C_recvfrom 3 1472 (RecvOk [] client 16);
        C_epoll_ctl 4 EPOLL_CTL_MOD 3 WRITABLE 0;
        C_epoll_wait 4 1 (-1) (WaitReady EPOLLOUT);
        C_sendto 3 [] client 16 (-1);
        C_epoll_ctl 4 EPOLL_CTL_MOD 3 READABLE 0],
       Looping s) /\
    ev_events s = READABLE /\ transient EAGAIN = true.
Proof. eexists. split; [reflexivity|]. split; reflexivity. Qed.

(** C3 fails on the same run: by the specification's transitions a send
    that fails transiently leaves the machine in [AWAIT_WRITE], for which
    writable interest should be registered; the interest the program has
    registered is readable. *)
Theorem rearm_after_failed_empty_send_is_readable :
  let t := fst (main junk0 setup_fine
                  [readable (RecvOk [] client 16); writable (failed EAGAIN)])
  in
  spec_phase t = AWAIT_WRITE /\
  registered t = Some READABLE /\
  interest_of (spec_phase t) = WRITABLE /\
  READABLE <> WRITABLE.
Proof. cbv zeta. repeat split. discriminate. Qed.

(** ** Facts used by the invariants *)

#[local] Arguments received : simpl never.
#[local] Arguments store_front : simpl never.
#[local] Arguments bytes_at : simpl never.
#[local] Arguments wrap64 : simpl never.
#[local] Arguments next_interest : simpl never.
#[local] Arguments MAX_BUFSIZE : simpl never.
#[local] Arguments READABLE : simpl never.
#[local] Arguments WRITABLE : simpl never.

Lemma next_interest_readable n : next_interest n = READABLE -> n = 0.
Proof.
  unfold next_interest. destruct (n =? 0) eqn:H; [lia|discriminate].
Qed.

Lemma next_interest_cases n :
  (n = 0 /\ next_interest n = READABLE) \/
  (n <> 0 /\ next_interest n = WRITABLE).
Proof.
  unfold next_interest. destruct (n =? 0) eqn:H; [left|right]; split; auto; lia.
Qed.

Lemma env_ok_inv s E reported :
  env_ok s E = true -> i_wait E = WaitReady reported ->
  (has_bits reported EPOLLIN = true -> has_bits (ev_events s) EPOLLIN = true)
  /\ (has_bits reported EPOLLOUT = true ->
      has_bits (ev_events s) EPOLLOUT = true)
  /\ rv (i_send E) <= datasize s.
Proof.
  unfold env_ok, wait_ok, send_ok. intros H Hw. rewrite Hw in H.
  apply andb_prop in H. destruct H as [H1 H2].
  apply andb_prop in H1. destruct H1 as [Hin Hout].
  repeat split; [intros Hr; rewrite Hr in Hin|intros Hr; rewrite Hr in Hout|];
    cbn in *; auto. lia.
Qed.

Lemma in_flight_app t1 t2 :
  in_flight (t1 ++ t2) = fold_left flight_step t2 (in_flight t1).
Proof. apply fold_left_app. Qed.

Lemma registered_app t1 t2 :
  registered (t1 ++ t2) = fold_left registered_step t2 (registered t1).
Proof. apply fold_left_app. Qed.

Lemma spec_run_app t1 t2 :
  spec_run (t1 ++ t2) = fold_left spec_step t2 (spec_run t1).
Proof. apply fold_left_app. Qed.

Lemma delivered_app t1 t2 : delivered (t1 ++ t2) = delivered t1 ++ delivered t2.
Proof. apply flat_map_app. Qed.

Lemma destinations_app t1 t2 :
  destinations (t1 ++ t2) = destinations t1 ++ destinations t2.
Proof. apply flat_map_app. Qed.

Lemma call_in_trace_app kind t1 t2 :
  call_in_trace kind (t1 ++ t2) =
  call_in_trace kind t1 || call_in_trace kind t2.
Proof. apply existsb_app. Qed.

Lemma received_length cap payload :
  0 <= cap -> 0 <= Z.of_nat (length (received cap payload)) <= cap.
Proof.
  intros H. unfold received. pose proof (firstn_le_length (Z.to_nat cap) payload).
  rewrite length_firstn. lia.
Qed.

Lemma received_all cap payload :
  Z.of_nat (length payload) <= cap -> received cap payload = payload.
Proof. intros H. unfold received. apply firstn_all2. lia. Qed.

Lemma bytes_at_store_front mem data :
  bytes_at (store_front mem data) 0 (Z.of_nat (length data)) = data.
Proof.
  unfold bytes_at, store_front. rewrite Nat2Z.id. cbn [Z.to_nat skipn].
  rewrite firstn_app, Nat.sub_diag, firstn_all. cbn. apply app_nil_r.
Qed.

Lemma bytes_at_advance mem p n r :
  0 <= p -> 0 <= r <= n ->
  skipn (Z.to_nat r) (bytes_at mem p n) = bytes_at mem (p + r) (n - r).
Proof.
  intros Hp Hr. unfold bytes_at.
  rewrite skipn_firstn_comm, skipn_skipn.
  rewrite Z2Nat.inj_sub, Z2Nat.inj_add by lia.
  rewrite (Nat.add_comm (Z.to_nat p)). reflexivity.
Qed.

Lemma skipn_length_nil {A} n (l : list A) : length l = n -> skipn n l = [].
Proof. intros <-. apply skipn_all. Qed.

(** What holds after a successful setup and is preserved by every
    iteration holds whenever [main] is between two iterations. *)
Lemma main_invariant (I : trace -> locals -> Prop) (Q : iter_env -> Prop) :
  (forall junk E t1 s1,
      setup E (set_ret EXIT_SUCCESS (set_epfd (-1) junk)) = (t1, Ok tt s1) ->
      I (C_malloc MAX_BUFSIZE true :: t1) s1) ->
  (forall t0 s E t s',
      I t0 s -> env_ok s E = true -> Q E -> iteration E s t s' ->
      I (t0 ++ t) s') ->
  forall junk E es t s,
    main_ok junk E es = true -> Forall Q es ->
    main junk E es = (t, Looping s) -> I t s.
Proof.
  intros Hinit Hstep junk E es t s Hok HQ H.
  apply main_Looping in H.
  destruct H as (_ & t1 & s1 & t2 & Hsetup & Hloop & ->).
  unfold main_ok in Hok. rewrite Hsetup in Hok. cbn in Hok.
  change (C_malloc MAX_BUFSIZE true :: t1 ++ t2)
    with ((C_malloc MAX_BUFSIZE true :: t1) ++ t2).
  eapply event_loop_invariant; eauto.
Qed.

(** ** The two states *)

Lemma two_states_step t0 s E t s' :
  awaiting t0 s \/ echoing t0 s ->
  env_ok s E = true -> iteration E s t s' ->
  awaiting (t0 ++ t) s' \/ echoing (t0 ++ t) s'.
Proof.
  intros HI Hok Hit.
  unfold awaiting, echoing, unsent, peer in *.
  rewrite in_flight_app.
  destruct Hit as [Hw|reported e Hw Hin Hrecv Htr Hctl s1
                  |reported payload src srclen Hw Hin Hrecv Hctl s1
                  |reported Hw Hin Hout Hr Htr Hctl s1
                  |reported Hw Hin Hout Hr Hctl s1
                  |reported Hw Hin Hout Hctl];
    try (destruct (env_ok_inv _ _ _ Hok Hw) as (Oin & Oout & Osend)).
  - (* interrupted *) exact HI.
  - (* receive failed, to be tried again *)
    left. unfold recv_call. rewrite Hrecv. cbn.
    destruct HI as [[_ Hu]|[Hev _]]; [auto|].
    specialize (Oin Hin). rewrite Hev in Oin. discriminate.
  - (* datagram received *)
    right. unfold recv_call. rewrite Hrecv. cbn.
    pose proof (received_length MAX_BUFSIZE payload) as Hlen.
    assert (HMAX : 0 <= MAX_BUFSIZE) by (unfold MAX_BUFSIZE; lia).
    specialize (Hlen HMAX).
    rewrite wrap64_small by (unfold MAX_BUFSIZE in *; lia).
    repeat split; try lia. apply bytes_at_store_front.
  - (* send failed, to be tried again *)
    destruct HI as [[Hev _]|(Hev & Hp & Hd & Hsum & Hbytes & Hlen & Hpeer)].
    { specialize (Oout Hout). rewrite Hev in Oout. discriminate. }
    unfold send_call. cbn.
    rewrite (proj2 (Z.ltb_lt _ 0) Hr).
    destruct (next_interest_cases (datasize s)) as [[Hz Hn]|[Hz Hn]];
      rewrite Hn.
    + left. split; [reflexivity|].
      destruct (fst (in_flight t0)); [reflexivity|cbn in Hlen; lia].
    + right. auto 10.
  - (* bytes sent *)
    destruct HI as [[Hev _]|(Hev & Hp & Hd & Hsum & Hbytes & Hlen & Hpeer)].
    { specialize (Oout Hout). rewrite Hev in Oout. discriminate. }
    unfold send_call, s1, after_send. cbn.
    rewrite (proj2 (Z.ltb_ge _ 0) Hr). cbn [fst snd].
    rewrite wrap64_small by (unfold MAX_BUFSIZE in *; lia).
    destruct (next_interest_cases (datasize s - rv (i_send E)))
      as [[Hz Hn]|[Hz Hn]]; rewrite Hn.
    + left. split; [reflexivity|]. apply skipn_length_nil. lia.
    + right. repeat split; try lia; auto.
      * rewrite <- Hbytes. symmetry. apply bytes_at_advance; lia.
      * rewrite length_skipn. lia.
  - (* neither readable nor writable *)
    exact HI.
Qed.




(** ** One datagram at a time *)

(** An iteration calls [recvfrom] exactly when [epoll_wait] reports the
    socket readable, whether or not the iteration stays in the loop. *)
Lemma recvfrom_attempted E s :
  call_in_trace is_recvfrom (fst (loop_body E s)) =
  match i_wait E with
  | WaitErr _ => false
  | WaitReady reported => has_bits reported EPOLLIN
  end.
Proof.
  rewrite loop_body_eq. cbv zeta.
  destruct (i_wait E) as [e|reported].
  - destruct (e =? EINTR); reflexivity.
  - cbn [fst]. unfold dispatch, mbind.
    destruct (has_bits reported EPOLLIN);
      [|destruct (has_bits reported EPOLLOUT)].
    + rewrite on_readable_eq. cbv zeta.
      destruct (i_recv E); [destruct (transient _)|]; reflexivity.
    + rewrite on_writable_eq. cbv zeta.
      destruct (rv (i_send E) <? 0); [destruct (transient _)|];
        cbn [fst snd app]; rewrite ?rearm_eq; cbv zeta;
        destruct (rv (i_ctl E) =? 0); reflexivity.
    + cbn [mret fst snd app]. rewrite rearm_eq. cbv zeta.
      destruct (rv (i_ctl E) =? 0); reflexivity.
Qed.

Lemma in_step_step t0 s E t s' :
  in_step t0 s -> env_ok s E = true -> iteration E s t s' ->
  in_step (t0 ++ t) s'.
Proof.
  intros (Hreg & Hev & Hzero) Hok Hit. unfold in_step.
  rewrite registered_app, call_in_trace_app.
  destruct Hit as [Hw|reported e Hw Hin Hrecv Htr Hctl s1
                  |reported payload src srclen Hw Hin Hrecv Hctl s1
                  |reported Hw Hin Hout Hr Htr Hctl s1
                  |reported Hw Hin Hout Hr Hctl s1
                  |reported Hw Hin Hout Hctl];
    try (destruct (env_ok_inv _ _ _ Hok Hw) as (Oin & Oout & Osend)).
  - cbn. rewrite orb_false_r. auto.
  - unfold recv_call. rewrite Hrecv. cbn. rewrite !orb_false_r.
    repeat split; auto. intros Hd _. apply Hzero; [exact Hd|].
    destruct Hev as [Hev|Hev]; [exact Hev|].
    specialize (Oin Hin). rewrite Hev in Oin. discriminate.
  - cbn. repeat split; auto. intros _ Hx. discriminate Hx.
  - cbn. rewrite !orb_false_r. repeat split; auto.
    + destruct (next_interest_cases (datasize s)) as [[_ ->]|[_ ->]]; auto.
    + intros _. apply next_interest_readable.
  - unfold s1, after_send. cbn. rewrite !orb_false_r. repeat split; auto.
    + destruct (next_interest_cases (wrap64 (datasize s - rv (i_send E))))
        as [[_ ->]|[_ ->]]; auto.
    + intros _. apply next_interest_readable.
  - cbn. rewrite !orb_false_r. auto.
Qed.

Lemma in_step_main junk E es t s :
  main_ok junk E es = true ->
  main junk E es = (t, Looping s) -> in_step t s.
Proof.
  intros Hok H. revert H. generalize (Forall_any es). revert Hok.
  apply (main_invariant in_step (fun _ => True)).
  - intros junk0 E0 t1 s1 Hsetup. apply setup_Ok in Hsetup.
    cbv zeta in Hsetup. destruct Hsetup as (-> & _ & _ & _ & _ & _ & Hev & _).
    unfold in_step. rewrite Hev. cbn. repeat split; auto. discriminate.
  - intros t0 s0 E1 t1 s1 HI Henv _. now apply in_step_step.
Qed.

(** Whenever [main] is between two iterations in the state with
    writable interest armed, the next iteration does not call [recvfrom].
    If the next iteration does call [recvfrom], readable interest is what
    is registered with the kernel and, if a datagram has been received
    before, [datasize] is zero.  This speaks of the bytes that remain,
    not of whether the datagram has been sent. *)
Lemma single_flight junk E0 es t s E :
  main_ok junk E0 es = true ->
  main junk E0 es = (t, Looping s) ->
  env_ok s E = true ->
  (ev_events s = WRITABLE ->
   call_in_trace is_recvfrom (fst (loop_body E s)) = false) /\
  (call_in_trace is_recvfrom (fst (loop_body E s)) = true ->
   registered t = Some READABLE /\
   (call_in_trace is_datagram t = true -> datasize s = 0)).
Proof.
  intros Hok H Henv.
  destruct (in_step_main _ _ _ _ _ Hok H) as (Hreg & Hev & Hzero).
  rewrite recvfrom_attempted.
  destruct (i_wait E) as [e|reported] eqn:Hw.
  - split; [reflexivity|discriminate].
  - destruct (env_ok_inv _ _ _ Henv Hw) as (Oin & _ & _).
    split.
    + intros Hwr. destruct (has_bits reported EPOLLIN); [|reflexivity].
      specialize (Oin eq_refl). rewrite Hwr in Oin. discriminate.
    + intros Hin. specialize (Oin Hin).
      assert (Hrd : ev_events s = READABLE).
      { destruct Hev as [Hev|Hev]; [exact Hev|].
        rewrite Hev in Oin. discriminate. }
      rewrite Hreg, Hrd. auto.
Qed.

Lemma single_flight_witness :
  exists t s,
    main junk0 setup_fine
         [readable (RecvOk ping client 16); writable (ok 3)]
    = (t, Looping s) /\
    ev_events s = WRITABLE /\
    call_in_trace is_recvfrom
      (fst (loop_body (writable (failed EAGAIN)) s)) = false.
Proof.
  eexists; eexists. split; [vm_compute; reflexivity|].
  split; [vm_compute; reflexivity|].
  refine (proj1 (single_flight junk0 setup_fine
                   [readable (RecvOk ping client 16); writable (ok 3)]
                   _ _ (writable (failed EAGAIN)) _ _ _) _);
    vm_compute; reflexivity.
Defined.

(** C4 fails on the program when the datagram being sent back is empty
    and its [sendto] fails with [EAGAIN]: a datagram has been received,
    no [sendto] has succeeded, the specification's machine is still in
    [AWAIT_WRITE], and yet the next iteration, on a readable
    notification that the registered interest allows, calls
    [recvfrom]. *)
Theorem receive_attempted_before_empty_echo_sent :
  let es := [readable (RecvOk [] client 16); writable (failed EAGAIN)] in
  let E := readable (RecvOk ping client 16) in
  exists t s,
    main junk0 setup_fine es = (t, Looping s) /\
    main_ok junk0 setup_fine es = true /\ env_ok s E = true /\
    call_in_trace is_datagram t = true /\
    call_in_trace is_sent t = false /\
    spec_phase t = AWAIT_WRITE /\
    call_in_trace is_recvfrom (fst (loop_body E s)) = true.
Proof.
  cbv zeta. eexists; eexists. split; [vm_compute; reflexivity|].
  repeat split; vm_compute; reflexivity.
Qed.

(** ** Echo identity *)

Lemma firstn_add {A} a b (l : list A) :
  firstn (a + b) l = firstn a l ++ firstn b (skipn a l).
Proof.
  revert l. induction a as [|a IH]; intros l; [reflexivity|].
  destruct l as [|x l]; cbn; [now rewrite firstn_nil|].
  now rewrite IH.
Qed.

(** The bytes at the cursor are the part of [B] that starts there. *)
Lemma bytes_at_prefix mem B p n :
  firstn (length B) mem = B -> 0 <= p -> 0 <= n ->
  p + n = Z.of_nat (length B) ->
  bytes_at mem p n = skipn (Z.to_nat p) B.
Proof.
  intros HB Hp Hn Hsum. unfold bytes_at.
  replace (skipn (Z.to_nat p) B)
    with (skipn (Z.to_nat p) (firstn (length B) mem)) by now rewrite HB.
  rewrite skipn_firstn_comm. f_equal. lia.
Qed.

Lemma echo_progress_step B src srclen t0 s E t s' :
  Z.of_nat (length B) <= MAX_BUFSIZE ->
  (call_in_trace is_datagram t0 = false -> echo_progress B src srclen t0 s) ->
  env_ok s E = true -> iteration E s t s' ->
  call_in_trace is_datagram (t0 ++ t) = false ->
  echo_progress B src srclen (t0 ++ t) s'.
Proof.
  intros HmaxB HI Hok Hit Hnone.
  rewrite call_in_trace_app in Hnone. apply orb_false_elim in Hnone.
  destruct Hnone as [Hnone0 Hnone].
  destruct (HI Hnone0)
    as (Haddr & Hlen & HB & Hp & Hd & Hsum & Hdel & Hdest & Hev).
  unfold echo_progress. rewrite delivered_app, destinations_app.
  destruct Hit as [Hw|reported e Hw Hin Hrecv Htr Hctl s1
                  |reported payload src' srclen' Hw Hin Hrecv Hctl s1
                  |reported Hw Hin Hout Hr Htr Hctl s1
                  |reported Hw Hin Hout Hr Hctl s1
                  |reported Hw Hin Hout Hctl];
    try (destruct (env_ok_inv _ _ _ Hok Hw) as (Oin & Oout & Osend)).
  - cbn. rewrite !app_nil_r. auto 10.
  - assert (Hrd : ev_events s = READABLE /\ datasize s = 0).
    { destruct Hev as [Hev|Hev]; [|exact Hev].
      specialize (Oin Hin). rewrite Hev in Oin. discriminate. }
    cbn. rewrite !app_nil_r. repeat split; auto; try tauto.
    intros Hx. discriminate Hx.
  - unfold recv_call in Hnone. rewrite Hrecv in Hnone. discriminate Hnone.
  - assert (Hwr : ev_events s = WRITABLE).
    { destruct Hev as [Hev|[Hev _]]; [exact Hev|].
      specialize (Oout Hout). rewrite Hev in Oout. discriminate. }
    cbn. rewrite (proj2 (Z.ltb_lt _ 0) Hr). rewrite !app_nil_r.
    repeat split; auto.
    + apply Forall_app. split; [exact Hdest|].
      constructor; [|constructor]. rewrite Haddr, (Hlen Hwr). reflexivity.
    + destruct (next_interest_cases (datasize s)) as [[Hz ->]|[Hz ->]]; auto.
  - assert (Hwr : ev_events s = WRITABLE).
    { destruct Hev as [Hev|[Hev _]]; [exact Hev|].
      specialize (Oout Hout). rewrite Hev in Oout. discriminate. }
    unfold s1, after_send. cbn.
    rewrite (proj2 (Z.ltb_ge _ 0) Hr). rewrite !app_nil_r.
    rewrite wrap64_small by (unfold MAX_BUFSIZE in *; lia).
    repeat split; auto; try lia.
    + rewrite Hdel, (bytes_at_prefix _ B) by assumption.
      rewrite Z2Nat.inj_add by lia. symmetry. apply firstn_add.
    + apply Forall_app. split; [exact Hdest|].
      constructor; [|constructor]. rewrite Haddr, (Hlen Hwr). reflexivity.
    + destruct (next_interest_cases (datasize s - rv (i_send E)))
        as [[Hz ->]|[Hz ->]]; auto.
  - cbn. rewrite !app_nil_r. auto 10.
Qed.

Lemma echo_progress_run B src srclen es :
  Z.of_nat (length B) <= MAX_BUFSIZE ->
  forall t0 s t s',
    (call_in_trace is_datagram t0 = false ->
     echo_progress B src srclen t0 s) ->
    script_ok s es = true ->
    event_loop es s = (t, Ok tt s') ->
    call_in_trace is_datagram (t0 ++ t) = false ->
    echo_progress B src srclen (t0 ++ t) s'.
Proof.
  intros HmaxB t0 s t s' HI Hok Hloop.
  refine (event_loop_invariant
            (fun t s => call_in_trace is_datagram t = false ->
                        echo_progress B src srclen t s)
            (fun _ => True) _ es t0 s t s' HI Hok (Forall_any es) Hloop).
  intros u0 u E u1 u' HI' Henv _ Hit Hnone.
  exact (echo_progress_step B src srclen u0 u E u1 u' HmaxB HI' Henv Hit
           Hnone).
Qed.

(** C1. Let an iteration receive the datagram [B], of at least one and at
    most [MAX_BUFSIZE] bytes, from [src]: it sets [datasize] to the length
    of [B] and the cursor to the start of the region.  Take any later
    moment between two iterations before which no other datagram has been
    received.  Every [sendto] made up to then went to [src]; the cursor
    has advanced by exactly the number of bytes sent and [datasize] has
    decreased by as much; the bytes sent followed by the [datasize] bytes
    at the cursor are [B]; and if readable interest is armed again, the
    bytes sent are exactly [B]. *)
Theorem echo_identity E s B src srclen reported t1 s1 es t s2 :
  0 < Z.of_nat (length B) <= MAX_BUFSIZE ->
  i_wait E = WaitReady reported -> has_bits reported EPOLLIN = true ->
  i_recv E = RecvOk B src srclen ->
  loop_body E s = (t1, Ok tt s1) ->
  script_ok s1 es = true ->
  event_loop es s1 = (t, Ok tt s2) ->
  call_in_trace is_datagram t = false ->
  datasize s1 = Z.of_nat (length B) /\ bufptr s1 = 0 /\
  Forall (eq (src, srclen)) (destinations t) /\
  bufptr s2 = Z.of_nat (length (delivered t)) /\
  datasize s2 = Z.of_nat (length B) - bufptr s2 /\
  delivered t ++ bytes_at (buf s2) (bufptr s2) (datasize s2) = B /\
  (ev_events s2 = READABLE -> delivered t = B).
Proof.
  intros HlenB Hw Hin Hrecv Hbody Hok Hloop Hnone.
  apply loop_body_Ok in Hbody.
  assert (Hs1 : s1 = after_recv B src srclen s).
  { destruct Hbody as [Hw'|r' e Hw' Hin' Hrecv' Htr Hctl u
                       |r' payload src' srclen' Hw' Hin' Hrecv' Hctl u
                       |r' Hw' Hin' Hout Hr Htr Hctl u
                       |r' Hw' Hin' Hout Hr Hctl u
                       |r' Hw' Hin' Hout Hctl]; try congruence.
    subst u. congruence. }
  clear Hbody.
  assert (Hrcv : received MAX_BUFSIZE B = B) by (apply received_all; lia).
  assert (Hstart : echo_progress B src srclen [] s1).
  { subst s1. unfold echo_progress, after_recv. cbn. rewrite Hrcv.
    rewrite wrap64_small by (unfold MAX_BUFSIZE in *; lia).
    repeat split; auto; try lia.
    unfold store_front. rewrite firstn_app, Nat.sub_diag, firstn_all.
    cbn. apply app_nil_r. }
  assert (Hdata : datasize s1 = Z.of_nat (length B) /\ bufptr s1 = 0).
  { destruct Hstart as (_ & _ & _ & _ & _ & Hsum & Hdel & _).
    subst s1. unfold after_recv in *. cbn in *. rewrite Hrcv in *.
    rewrite wrap64_small by (unfold MAX_BUFSIZE in *; lia). auto. }
  pose proof (echo_progress_run B src srclen es (proj2 HlenB) [] s1 t s2
                (fun _ => Hstart) Hok Hloop Hnone) as HP.
  cbn [app] in HP.
  destruct HP as (Haddr & Hlen & HB & Hp & Hd & Hsum & Hdel & Hdest & Hev).
  assert (Hcur : bufptr s2 = Z.of_nat (length (delivered t))).
  { rewrite Hdel, length_firstn. lia. }
  assert (Hall : delivered t ++ bytes_at (buf s2) (bufptr s2) (datasize s2)
                 = B).
  { rewrite Hdel, (bytes_at_prefix _ B) by assumption. apply firstn_skipn. }
  destruct Hdata as [Hd1 Hp1].
  repeat split; auto; try lia.
  intros Hrd. destruct Hev as [Hev|[_ Hz]].
  - rewrite Hrd in Hev. discriminate.
  - rewrite Hdel. apply firstn_all2. lia.
Qed.

Lemma echo_identity_witness :
  exists t1 s1 t s2,
    loop_body (readable (RecvOk ping client 16)) junk0 = (t1, Ok tt s1) /\
    event_loop [writable (ok 3); writable (failed EAGAIN); writable (ok 1)]
               s1 = (t, Ok tt s2) /\
    ev_events s2 = READABLE /\
    delivered t = ping.
Proof.
  eexists; eexists; eexists; eexists.
  split; [vm_compute; reflexivity|]. split; [vm_compute; reflexivity|].
  split; [vm_compute; reflexivity|].
  refine (proj2 (proj2 (proj2 (proj2 (proj2 (proj2
            (echo_identity (readable (RecvOk ping client 16)) junk0 ping
               client 16 EPOLLIN _ _
               [writable (ok 3); writable (failed EAGAIN); writable (ok 1)]
               _ _ _ _ _ _ _ _ _ _)))))) _);
    try (vm_compute; reflexivity).
  split; [reflexivity|discriminate].
Defined.

(** ** Registered interest and the specification's state *)

Lemma agrees_step t0 s E t s' :
  agrees t0 s -> env_ok s E = true -> not_empty E -> iteration E s t s' ->
  agrees (t0 ++ t) s'.
Proof.
  intros (Hreg & Hev & Hwr) Hok Hne Hit. unfold agrees, spec_phase in *.
  rewrite registered_app, spec_run_app.
  destruct (spec_run t0) as [ph n] eqn:Hrun. cbn [fst snd] in *.
  destruct Hit as [Hw|reported e Hw Hin Hrecv Htr Hctl s1
                  |reported payload src srclen Hw Hin Hrecv Hctl s1
                  |reported Hw Hin Hout Hr Htr Hctl s1
                  |reported Hw Hin Hout Hr Hctl s1
                  |reported Hw Hin Hout Hctl];
    try (destruct (env_ok_inv _ _ _ Hok Hw) as (Oin & Oout & Osend)).
  - cbn. auto.
  - unfold recv_call. rewrite Hrecv. cbn.
    destruct ph; cbn in Hev.
    2:{ specialize (Oin Hin). rewrite Hev in Oin. discriminate. }
    split; [reflexivity|]. split; [reflexivity|]. intros Hx. discriminate Hx.
  - unfold recv_call. rewrite Hrecv. cbn.
    unfold not_empty in Hne. rewrite Hrecv in Hne.
    pose proof (received_length MAX_BUFSIZE payload) as Hlen.
    assert (HMAX : 0 <= MAX_BUFSIZE) by (unfold MAX_BUFSIZE; lia).
    specialize (Hlen HMAX).
    assert (Hpos : 0 < Z.of_nat (length (received MAX_BUFSIZE payload))).
    { unfold received. destruct payload as [|b payload]; [congruence|].
      change (Z.to_nat MAX_BUFSIZE) with (S (Z.to_nat 1471)).
      cbn [firstn length]. lia. }
    rewrite wrap64_small by (unfold MAX_BUFSIZE in *; lia).
    repeat split; auto; lia.
  - destruct ph; cbn in Hev.
    { specialize (Oout Hout). rewrite Hev in Oout. discriminate. }
    destruct (Hwr eq_refl) as (Hn & Hpos & Hmax).
    cbn. rewrite (proj2 (Z.ltb_lt _ 0) Hr). cbn.
    destruct (next_interest_cases (datasize s)) as [[Hz _]|[_ ->]]; [lia|].
    repeat split; auto.
  - destruct ph; cbn in Hev.
    { specialize (Oout Hout). rewrite Hev in Oout. discriminate. }
    destruct (Hwr eq_refl) as (Hn & Hpos & Hmax).
    unfold s1, after_send. cbn. rewrite (proj2 (Z.ltb_ge _ 0) Hr).
    rewrite wrap64_small by (unfold MAX_BUFSIZE in *; lia). subst n.
    destruct (next_interest_cases (datasize s - rv (i_send E)))
      as [[Hz ->]|[Hz ->]].
    + rewrite (proj2 (Z.eqb_eq _ 0) Hz). cbn.
      split; [reflexivity|]. split; [reflexivity|].
      intros Hx. discriminate Hx.
    + rewrite (proj2 (Z.eqb_neq _ 0) Hz). cbn. repeat split; auto; lia.
  - cbn. auto.
Qed.

(** As long as no empty datagram is received, the interest registered
    after every iteration is the one of the state the specification's
    machine is in. *)
Lemma rearm_reflects_state_unless_empty junk E es t s :
  main_ok junk E es = true -> Forall not_empty es ->
  main junk E es = (t, Looping s) ->
  registered t = Some (interest_of (spec_phase t)).
Proof.
  intros Hok Hne H.
  assert (HA : agrees t s).
  { revert Hok Hne H. apply (main_invariant agrees not_empty).
    - intros junk0 E0 t1 s1 Hsetup. apply setup_Ok in Hsetup.
      cbv zeta in Hsetup. destruct Hsetup as (-> & _ & _ & _ & _ & _ & Hev & _).
      unfold agrees. rewrite Hev. cbn. repeat split; discriminate.
    - intros t0 s0 E1 t1 s1. apply agrees_step. }
  destruct HA as (Hreg & Hev & _). congruence.
Qed.

(** Whatever is received, the interest registered with the kernel is the
    value the program keeps in [ev.events]. *)
Lemma registered_is_ev_events junk E es t s :
  main_ok junk E es = true ->
  main junk E es = (t, Looping s) ->
  registered t = Some (ev_events s) /\
  (ev_events s = READABLE \/ ev_events s = WRITABLE).
Proof.
  intros Hok H. destruct (in_step_main _ _ _ _ _ Hok H) as (H1 & H2 & _).
  auto.
Qed.

(** * Further properties of the program *)

(** ** What one iteration calls *)

(** All the ways an iteration can go. *)
Ltac loop_body_cases E :=
  rewrite loop_body_eq; cbv zeta;
  destruct (i_wait E) as [?e|?reported] eqn:?Hw;
  [ destruct (_ =? EINTR) eqn:?He
  | cbn [fst snd]; unfold dispatch, mbind;
    destruct (has_bits _ EPOLLIN) eqn:?Hin;
    [ rewrite on_readable_eq; cbv zeta;
      destruct (i_recv E) as [?e|?payload ?src ?srclen] eqn:?Hrecv;
      [destruct (transient _) eqn:?Htr|]
    | destruct (has_bits _ EPOLLOUT) eqn:?Hout;
      [ rewrite on_writable_eq; cbv zeta;
        destruct (rv (i_send E) <? 0) eqn:?Hr;
        [destruct (transient _) eqn:?Htr|]
      | cbn [mret] ] ];
    cbn [fst snd app]; rewrite ?rearm_eq; cbv zeta;
    try destruct (rv (i_ctl E) =? 0) eqn:?Hctl ].

(** X1. In one iteration the program calls [recvfrom] once if
    [epoll_wait] reports the socket readable, and otherwise [sendto] once
    if it reports the socket writable: readable has priority, and an
    iteration never makes both calls, or either of them twice, or either
    of them after a failed [epoll_wait]. *)
Theorem one_transfer_per_iteration E s :
  count_calls is_recvfrom (fst (loop_body E s)) =
  match i_wait E with
  | WaitErr _ => 0%nat
  | WaitReady reported => if has_bits reported EPOLLIN then 1%nat else 0%nat
  end /\
  count_calls is_sendto (fst (loop_body E s)) =
  match i_wait E with
  | WaitErr _ => 0%nat
  | WaitReady reported =>
      if has_bits reported EPOLLIN then 0%nat
      else if has_bits reported EPOLLOUT then 1%nat else 0%nat
  end.
Proof.
  loop_body_cases E; split; reflexivity.
Qed.

Lemma loop_body_calls E s :
  forallb is_loop_call (fst (loop_body E s)) = true.
Proof. loop_body_cases E; reflexivity. Qed.

Lemma event_loop_calls es :
  forall s, forallb is_loop_call (fst (event_loop es s)) = true.
Proof.
  induction es as [|E es IH]; intros s; [reflexivity|].
  cbn [event_loop]. unfold mbind.
  pose proof (loop_body_calls E s) as H.
  destruct (loop_body E s) as [t [[] s'|s']]; cbn [fst snd] in *.
  - rewrite forallb_app, H, IH. reflexivity.
  - exact H.
Qed.

(** ** Re-arming *)

Lemma count_calls_app kind t1 t2 :
  count_calls kind (t1 ++ t2) =
  (count_calls kind t1 + count_calls kind t2)%nat.
Proof. unfold count_calls. now rewrite filter_app, length_app. Qed.

Lemma iteration_rearms E s t s' :
  iteration E s t s' ->
  count_calls is_rearm t = count_calls is_notification t.
Proof.
  intros H. destruct H; unfold wait_call;
    match goal with Hw : i_wait E = _ |- _ => rewrite Hw end; reflexivity.
Qed.

Lemma event_loop_rearms es :
  forall s t s',
    event_loop es s = (t, Ok tt s') ->
    count_calls is_rearm t = count_calls is_notification t.
Proof.
  induction es as [|E es IH]; intros s t s' H.
  - inversion H. reflexivity.
  - apply event_loop_Ok_inv in H.
    destruct H as (t1 & s1 & t2 & Hit & Hrest & ->).
    rewrite !count_calls_app, (iteration_rearms _ _ _ _ Hit),
      (IH _ _ _ Hrest).
    reflexivity.
Qed.

(** X2. As long as [main] stays in the loop, it has re-armed the watcher
    (with [EPOLL_CTL_MOD]) exactly once for every notification
    [epoll_wait] has returned, and never after an interrupted wait: no
    one-shot notification is left without its re-arm and none is re-armed
    twice. *)
Theorem one_rearm_per_notification junk E es t s :
  main junk E es = (t, Looping s) ->
  count_calls is_rearm t = count_calls is_notification t.
Proof.
  intros H. apply main_Looping in H.
  destruct H as (_ & t1 & s1 & t2 & Hsetup & Hloop & ->).
  apply setup_Ok in Hsetup. cbv zeta in Hsetup. destruct Hsetup as (-> & _).
  change (C_malloc MAX_BUFSIZE true :: ?a ++ t2)
    with ((C_malloc MAX_BUFSIZE true :: a) ++ t2).
  rewrite !count_calls_app, (event_loop_rearms _ _ _ _ Hloop).
  reflexivity.
Qed.

Lemma one_rearm_per_notification_witness :
  exists t s,
    main junk0 setup_fine
         [readable (RecvOk ping client 16); wait_fails EINTR;
          writable (ok 4)]
    = (t, Looping s) /\
    count_calls is_rearm t = 2%nat /\
    count_calls is_rearm t = count_calls is_notification t.
Proof.
  eexists; eexists. split; [vm_compute; reflexivity|].
  split; [vm_compute; reflexivity|].
  eapply (one_rearm_per_notification junk0 setup_fine
            [readable (RecvOk ping client 16); wait_fails EINTR;
             writable (ok 4)]).
  vm_compute; reflexivity.
Defined.

(** ** Order of the setup *)

Lemma binds_before_options_app t1 t2 :
  binds_before_options t1 = true ->
  forallb (fun c => negb (is_bind c)) t2 = true ->
  binds_before_options (t1 ++ t2) = true.
Proof.
  intros H1 H2. induction t1 as [|c t1 IH]; cbn [app binds_before_options] in *.
  - induction t2 as [|c t2 IH2]; [reflexivity|].
    cbn [binds_before_options forallb] in *.
    apply andb_prop in H2. destruct H2 as [_ H2].
    destruct (is_setsockopt c); auto.
  - destruct (is_setsockopt c); [|auto].
    rewrite forallb_app, H1, H2. reflexivity.
Qed.

Lemma binds_before_options_split t :
  binds_before_options t = true ->
  forall pre c post,
    t = pre ++ c :: post -> is_bind c = true ->
    forallb (fun c' => negb (is_setsockopt c')) pre = true.
Proof.
  intros H pre. revert t H.
  induction pre as [|x pre IH]; intros t H c post -> Hc; [reflexivity|].
  cbn [app binds_before_options forallb] in *.
  destruct (is_setsockopt x) eqn:Hx.
  - rewrite forallb_app in H. apply andb_prop in H. destruct H as [_ H].
    cbn [forallb] in H. rewrite Hc in H. discriminate H.
  - cbn [negb andb]. eapply IH; eauto.
Qed.

Lemma reuseport_untouched fd t :
  forallb (fun c => negb (is_setsockopt c)) t = true ->
  reuseport fd t = false.
Proof.
  unfold reuseport. intros H.
  assert (Hfold : forall acc, fold_left (reuseport_step fd) t acc = acc).
  { induction t as [|c t IH]; intros acc; [reflexivity|].
    cbn [forallb fold_left] in *. apply andb_prop in H. destruct H as [Hc Ht].
    rewrite (IH Ht). destruct c; try reflexivity. discriminate Hc. }
  rewrite Hfold. reflexivity.
Qed.

Lemma loop_calls_no_bind t :
  forallb is_loop_call t = true ->
  forallb (fun c => negb (is_bind c)) t = true.
Proof.
  intros H. rewrite forallb_forall in *. intros c Hc.
  specialize (H c Hc). destruct c; try reflexivity; discriminate H.
Qed.

Lemma setup_order E s :
  binds_before_options (fst (setup E s)) = true.
Proof.
  destruct (setup E s) as [t [[] s'|s']] eqn:Hsetup; cbn [fst].
  - apply setup_Ok in Hsetup. cbv zeta in Hsetup. destruct Hsetup as (-> & _).
    reflexivity.
  - unfold setup in Hsetup.
    repeat step_Out Hsetup; try eval_in Hsetup; try discriminate;
      reflexivity.
Qed.

Lemma main_order junk E es :
  binds_before_options (fst (main junk E es)) = true.
Proof.
  unfold main. destruct (e_malloc E); cbn [negb]; [|reflexivity].
  unfold mbind.
  pose proof (setup_order E (set_ret EXIT_SUCCESS (set_epfd (-1) junk))) as H.
  destruct (setup E _) as [t1 [[] s1|s1]]; cbn [fst snd] in *.
  - pose proof (event_loop_calls es s1) as Hloop.
    apply loop_calls_no_bind in Hloop.
    destruct (event_loop es s1) as [t2 [[] s2|s2]]; cbn [fst snd] in *.
    + apply (binds_before_options_app (_ :: _)); [exact H|exact Hloop].
    + change (C_malloc MAX_BUFSIZE true :: (t1 ++ t2) ++ ?x)
        with ((C_malloc MAX_BUFSIZE true :: t1 ++ t2) ++ x).
      apply binds_before_options_app.
      * apply (binds_before_options_app (_ :: _)); [exact H|exact Hloop].
      * destruct (0 <=? epfd s2), (0 <=? sockfd s2); reflexivity.
  - apply (binds_before_options_app (_ :: _)); [exact H|].
    destruct (0 <=? epfd s1), (0 <=? sockfd s1); reflexivity.
Qed.

(** X3. At the moment [main] calls [bind], the [SO_REUSEPORT] option of
    the socket has not been switched on: in every run the [setsockopt]
    call comes after [bind], never before it.  So the address is bound
    without port reuse, although the option is set afterwards. *)
Theorem bind_comes_before_reuseport junk E es pre fd family port addr r post :
  fst (main junk E es) = pre ++ C_bind fd family port addr r :: post ->
  reuseport fd pre = false /\ call_in_trace is_setsockopt pre = false.
Proof.
  intros H.
  pose proof (binds_before_options_split _ (main_order junk E es)
                pre _ post H eq_refl) as Hpre.
  split; [now apply reuseport_untouched|].
  unfold call_in_trace. clear H.
  induction pre as [|c pre IH]; [reflexivity|].
  cbn [forallb existsb] in *. apply andb_prop in Hpre.
  destruct Hpre as [Hc Hpre]. rewrite (IH Hpre).
  destruct (is_setsockopt c); [discriminate Hc|reflexivity].
Qed.

Lemma bind_comes_before_reuseport_witness :
  fst (main junk0 setup_fine []) =
  [C_malloc 1472 true; C_socket AF_INET SOCK_DGRAM 0 3;
   C_fcntl_getfl 3 2; C_fcntl_setfl 3 2050 0] ++
  C_bind 3 AF_INET 788 "127.0.0.1" 0 ::
  [C_setsockopt 3 SOL_SOCKET SO_REUSEPORT 1 0; C_epoll_create1 0 4;
   C_epoll_ctl 4 EPOLL_CTL_ADD 3 READABLE 0] /\
  reuseport 3 [C_malloc 1472 true; C_socket AF_INET SOCK_DGRAM 0 3;
               C_fcntl_getfl 3 2; C_fcntl_setfl 3 2050 0] = false /\
  reuseport 3 (fst (main junk0 setup_fine [])) = true.
Proof.
  split; [vm_compute; reflexivity|]. split; [|vm_compute; reflexivity].
  refine (proj1 (bind_comes_before_reuseport junk0 setup_fine [] _ _ _ _ _ _
                   _ _)).
  vm_compute; reflexivity.
Defined.

Lemma note_errno_only_errno r s :
  note_errno r s = set_errno (errno (note_errno r s)) s.
Proof.
  unfold note_errno. destruct s, (rv r <? 0); reflexivity.
Qed.

(** X4. [set_reuseport] always returns, with 0 when neither [fcntl] call
    returned -1 and with -1 otherwise.  It changes no variable of [main]:
    the only thing that can differ afterwards is [errno], which then
    holds the error of the [fcntl] that failed, and which is as before
    when neither call returned a negative value.  When it returns 0 the
    status flags of the descriptor are the flags [F_GETFL] returned with
    the [O_NONBLOCK] bit added and every other bit as it was; when it
    returns -1 the status flags of the descriptor are left as they
    were. *)
Theorem set_reuseport_keeps_other_flags E fd s t0 :
  exists v s',
    snd (set_reuseport E fd s) = Ok v s' /\
    v = (if (rv (e_getfl E) =? -1) || (rv (e_setfl E) =? -1)
         then -1 else 0) /\
    s' = set_errno (errno s') s /\
    (rv (e_getfl E) = -1 -> errno s' = errno_of (e_getfl E)) /\
    (rv (e_getfl E) <> -1 -> rv (e_setfl E) = -1 ->
     errno s' = errno_of (e_setfl E)) /\
    (0 <= rv (e_getfl E) -> 0 <= rv (e_setfl E) -> errno s' = errno s) /\
    status_flags fd (t0 ++ fst (set_reuseport E fd s)) =
    (if v =? 0 then Some (Z.lor (rv (e_getfl E)) O_NONBLOCK)
     else status_flags fd t0) /\
    (forall n,
        Z.testbit (Z.lor (rv (e_getfl E)) O_NONBLOCK) n =
        Z.testbit (rv (e_getfl E)) n || (11 =? n)) /\
    (forall flags r,
        In (C_fcntl_setfl fd flags r) (fst (set_reuseport E fd s)) ->
        rv (e_getfl E) <> -1 /\
        flags = Z.lor (rv (e_getfl E)) O_NONBLOCK).
Proof.
  assert (Hbits : forall n,
             Z.testbit (Z.lor (rv (e_getfl E)) O_NONBLOCK) n =
             Z.testbit (rv (e_getfl E)) n || (11 =? n)).
  { intros n. rewrite Z.lor_spec. f_equal.
    change O_NONBLOCK with (2 ^ 11). apply Z.pow2_bits_eqb. lia. }
  unfold set_reuseport, sys_fcntl_getfl, sys_fcntl_setfl, status_flags.
  rewrite fold_left_app.
  cbv [syscall mbind mret emit write fst snd app].
  destruct (rv (e_getfl E) =? -1) eqn:Hget; cbn [orb].
  - apply Z.eqb_eq in Hget.
    eexists; eexists. split; [reflexivity|]. split; [reflexivity|].
    split; [apply note_errno_only_errno|].
    split; [|split; [|split; [|split; [|split]]]].
    + intros _. unfold note_errno. rewrite Hget. reflexivity.
    + intros H. contradiction.
    + intros H. lia.
    + reflexivity.
    + exact Hbits.
    + intros flags r [H|[]]. discriminate H.
  - apply Z.eqb_neq in Hget. cbv [mbind fst snd app].
    rewrite (Z.eqb_sym (-1)).
    assert (Hs : note_errno (e_setfl E) (note_errno (e_getfl E) s) =
                 set_errno
                   (errno (note_errno (e_setfl E)
                             (note_errno (e_getfl E) s))) s).
    { unfold note_errno.
      destruct s, (rv (e_setfl E) <? 0), (rv (e_getfl E) <? 0);
        reflexivity. }
    assert (Herr1 : rv (e_setfl E) = -1 ->
                    errno (note_errno (e_setfl E)
                             (note_errno (e_getfl E) s)) =
                    errno_of (e_setfl E)).
    { intros H. unfold note_errno at 1. rewrite H. reflexivity. }
    assert (Herr2 : 0 <= rv (e_getfl E) -> 0 <= rv (e_setfl E) ->
                    errno (note_errno (e_setfl E)
                             (note_errno (e_getfl E) s)) = errno s).
    { intros H1 H2. unfold note_errno.
      rewrite (proj2 (Z.ltb_ge _ 0) H1), (proj2 (Z.ltb_ge _ 0) H2).
      reflexivity. }
    destruct (rv (e_setfl E) =? -1) eqn:Hset;
      (eexists; eexists; split; [reflexivity|]; split; [reflexivity|];
       split; [exact Hs|];
       split; [intros H; contradiction|];
       split; [intros _; exact Herr1|];
       split; [exact Herr2|];
       split; [cbn; rewrite Z.eqb_refl, Hset; reflexivity|];
       split; [exact Hbits|];
       intros flags r [H|[H|[]]]; [discriminate H|];
       inversion H; subst; auto).
Qed.

(** ** Errors in the loop *)

(** X5. A [recvfrom] or [sendto] that fails with an error other than
    [EINTR] and [EAGAIN] ends the program: the two messages for the call
    are written, no re-arm and no further call of the loop is made, the
    code at [out] runs and [main] returns [EXIT_FAILURE].  On the send
    side this happens whatever remains to be sent. *)
Theorem transfer_error_is_fatal junk E0 pre E post t s reported :
  main junk E0 pre = (t, Looping s) ->
  i_wait E = WaitReady reported ->
  (has_bits reported EPOLLIN = true ->
   forall e, i_recv E = RecvErr e -> transient e = false ->
   main junk E0 (pre ++ E :: post) =
   (t ++ [wait_call E s; recv_call E s] ++ diag At_recvfrom e ++
    fst (teardown s), Exited EXIT_FAILURE)) /\
  (has_bits reported EPOLLIN = false -> has_bits reported EPOLLOUT = true ->
   rv (i_send E) < 0 -> transient (errno_of (i_send E)) = false ->
   main junk E0 (pre ++ E :: post) =
   (t ++ [wait_call E s; send_call E s] ++
    diag At_sendto (errno_of (i_send E)) ++ fst (teardown s),
    Exited EXIT_FAILURE)).
Proof.
  intros Hmain Hw. split.
  - intros Hin e Hrecv Htr.
    rewrite (main_continue _ _ _ (E :: post) _ _ Hmain). cbn [event_loop].
    erewrite mbind_Out.
    2:{ rewrite loop_body_eq. cbv zeta. rewrite Hw. unfold dispatch.
        rewrite Hin. erewrite mbind_Out.
        2:{ rewrite on_readable_eq. cbv zeta. rewrite Hrecv, Htr.
            reflexivity. }
        reflexivity. }
    unfold wait_call, recv_call. rewrite Hw, Hrecv. reflexivity.
  - intros Hin Hout Hr Htr.
    rewrite (main_continue _ _ _ (E :: post) _ _ Hmain). cbn [event_loop].
    erewrite mbind_Out.
    2:{ rewrite loop_body_eq. cbv zeta. rewrite Hw. unfold dispatch.
        rewrite Hin, Hout. erewrite mbind_Out.
        2:{ rewrite on_writable_eq. cbv zeta.
            rewrite (proj2 (Z.ltb_lt _ 0) Hr), Htr. reflexivity. }
        reflexivity. }
    unfold wait_call, send_call. rewrite Hw. reflexivity.
Qed.

Lemma transfer_error_is_fatal_witness :
  exists t s,
    main junk0 setup_fine [readable (RecvOk ping client 16)]
    = (t, Looping s) /\
    main junk0 setup_fine
         ([readable (RecvOk ping client 16)] ++
          writable (failed 111) :: [writable (ok 4)]) =
    (t ++ [wait_call (writable (failed 111)) s;
           send_call (writable (failed 111)) s] ++
     diag At_sendto 111 ++ fst (teardown s), Exited EXIT_FAILURE).
Proof.
  eexists; eexists. split; [vm_compute; reflexivity|].
  refine (proj2 (transfer_error_is_fatal junk0 setup_fine
                   [readable (RecvOk ping client 16)]
                   (writable (failed 111)) [writable (ok 4)] _ _ EPOLLOUT
                   _ _) _ _ _ _);
    vm_compute; reflexivity.
Defined.

(** X6. If the re-arm fails, that is if [epoll_ctl] returns anything but
    0 after a notification, the iteration leaves the loop and the program
    ends with [EXIT_FAILURE], also when the transfer of that iteration
    succeeded: a datagram just received is then never sent back. *)
Theorem rearm_failure_is_fatal junk E0 pre E post t s reported :
  main junk E0 pre = (t, Looping s) ->
  i_wait E = WaitReady reported ->
  rv (i_ctl E) <> 0 ->
  exists t' s',
    loop_body E s = (t', Out s') /\
    main junk E0 (pre ++ E :: post) =
    (t ++ t' ++ fst (teardown s'), Exited EXIT_FAILURE).
Proof.
  intros Hmain Hw Hctl.
  rewrite (main_continue _ _ _ (E :: post) _ _ Hmain). cbn [event_loop].
  destruct (loop_body E s) as [t' [[] s'|s']] eqn:Hbody.
  - apply loop_body_Ok in Hbody.
    destruct Hbody; congruence.
  - exists t', s'. split; [reflexivity|].
    rewrite (mbind_Out (loop_body E) _ s t' s' Hbody).
    apply loop_body_Out in Hbody. destruct Hbody as (Hret & _).
    rewrite Hret. reflexivity.
Qed.

Lemma rearm_failure_is_fatal_witness :
  exists t s,
    main junk0 setup_fine [] = (t, Looping s) /\
    exists t' s',
      loop_body (IterEnv (WaitReady EPOLLIN) (RecvOk ping client 16)
                         (ok 4) (failed 9)) s = (t', Out s') /\
      main junk0 setup_fine
           ([] ++ IterEnv (WaitReady EPOLLIN) (RecvOk ping client 16)
                          (ok 4) (failed 9) :: [writable (ok 4)])
      = (t ++ t' ++ fst (teardown s'), Exited EXIT_FAILURE).
Proof.
  eexists; eexists. split; [vm_compute; reflexivity|].
  refine (rearm_failure_is_fatal junk0 setup_fine []
            (IterEnv (WaitReady EPOLLIN) (RecvOk ping client 16)
                     (ok 4) (failed 9))
            [writable (ok 4)] _ _ EPOLLIN _ _ _);
    try (vm_compute; reflexivity).
  discriminate.
Defined.

(** ** Datagrams of any length *)

(** X7. Whatever the length of a datagram, what the program sends back
    is its first [MAX_BUFSIZE] bytes: a longer datagram is echoed cut to
    1472 bytes and the rest of it is lost.  At any moment between two
    iterations after the receive, with no other datagram received, the
    bytes sent and the bytes at the cursor make up that prefix, and once
    readable interest is armed again the bytes sent are that prefix. *)
Theorem echo_is_cut_to_buffer E s payload src srclen reported t1 s1 es t s2 :
  i_wait E = WaitReady reported -> has_bits reported EPOLLIN = true ->
  i_recv E = RecvOk payload src srclen ->
  loop_body E s = (t1, Ok tt s1) ->
  script_ok s1 es = true ->
  event_loop es s1 = (t, Ok tt s2) ->
  call_in_trace is_datagram t = false ->
  datasize s1 = Z.min (Z.of_nat (length payload)) MAX_BUFSIZE /\
  delivered t ++ bytes_at (buf s2) (bufptr s2) (datasize s2) =
  firstn (Z.to_nat MAX_BUFSIZE) payload /\
  (ev_events s2 = READABLE ->
   delivered t = firstn (Z.to_nat MAX_BUFSIZE) payload).
Proof.
  intros Hw Hin Hrecv Hbody Hok Hloop Hnone.
  apply loop_body_Ok in Hbody.
  assert (Hs1 : s1 = after_recv payload src srclen s).
  { destruct Hbody as [Hw'|r' e Hw' Hin' Hrecv' Htr Hctl u
                       |r' payload' src' srclen' Hw' Hin' Hrecv' Hctl u
                       |r' Hw' Hin' Hout Hr Htr Hctl u
                       |r' Hw' Hin' Hout Hr Hctl u
                       |r' Hw' Hin' Hout Hctl]; try congruence.
    subst u. congruence. }
  clear Hbody.
  set (B := received MAX_BUFSIZE payload).
  assert (HMAX : 0 <= MAX_BUFSIZE) by (unfold MAX_BUFSIZE; lia).
  pose proof (received_length MAX_BUFSIZE payload HMAX) as HlenB.
  fold B in HlenB.
  assert (Hd1 : datasize s1 = Z.of_nat (length B)).
  { subst s1. unfold after_recv. cbn. fold B.
    apply wrap64_small. unfold MAX_BUFSIZE in *. lia. }
  assert (Hstart : echo_progress B src srclen [] s1).
  { unfold echo_progress. rewrite Hd1. subst s1. unfold after_recv. cbn.
    fold B. repeat split; auto; try lia.
    unfold store_front. rewrite firstn_app, Nat.sub_diag, firstn_all.
    cbn. apply app_nil_r. }
  pose proof (echo_progress_run B src srclen es (proj2 HlenB) [] s1 t s2
                (fun _ => Hstart) Hok Hloop Hnone) as HP.
  cbn [app] in HP.
  destruct HP as (Haddr & Hlen & HB & Hp & Hd & Hsum & Hdel & Hdest & Hev).
  change (firstn (Z.to_nat MAX_BUFSIZE) payload) with B.
  split; [|split].
  - rewrite Hd1. unfold B, received. rewrite length_firstn. lia.
  - rewrite Hdel, (bytes_at_prefix _ B) by assumption. apply firstn_skipn.
  - intros Hrd. destruct Hev as [Hev|[_ Hz]].
    + rewrite Hrd in Hev. discriminate.
    + rewrite Hdel. apply firstn_all2. lia.
Qed.

Lemma echo_is_cut_to_buffer_witness :
  let E := readable (RecvOk ping client 16) in
  let es := [writable (ok 1); writable (ok 3)] in
  let s1 := after_recv ping client 16 junk0 in
  let t := fst (event_loop es s1) in
  let s2 := after_send 3 (after_send 1 s1) in
  loop_body E junk0 =
  ([wait_call E junk0; recv_call E junk0; ctl_call s1], Ok tt s1) /\
  event_loop es s1 = (t, Ok tt s2) /\
  ev_events s2 = READABLE /\
  delivered t = firstn (Z.to_nat MAX_BUFSIZE) ping.
Proof.
  intros E es s1 t s2.
  assert (H1 : loop_body E junk0 =
               ([wait_call E junk0; recv_call E junk0; ctl_call s1],
                Ok tt s1)) by (vm_compute; reflexivity).
  assert (H2 : event_loop es s1 = (t, Ok tt s2)) by (vm_compute; reflexivity).
  assert (H3 : ev_events s2 = READABLE) by (vm_compute; reflexivity).
  split; [exact H1|]. split; [exact H2|]. split; [exact H3|].
  refine (proj2 (proj2
            (echo_is_cut_to_buffer E junk0 ping client 16 EPOLLIN _ s1 es t
               s2 _ _ _ H1 _ H2 _)) H3);
    vm_compute; reflexivity.
Defined.

(** ** Partial sends *)

Lemma one_send m s :
  0 <= m ->
  loop_body (writable (ok m)) s =
  ([wait_call (writable (ok m)) s; send_call (writable (ok m)) s;
    ctl_call (after_send m s)], Ok tt (after_send m s)).
Proof.
  intros Hm. apply iteration_loop_body.
  exact (@it_send_ok (writable (ok m)) s EPOLLOUT eq_refl eq_refl eq_refl Hm
           eq_refl).
Qed.

(** X8. If [sendto] takes the pending bytes in pieces, each of at least
    one byte and together as many as [datasize], then after one
    iteration per piece the program has sent exactly the [datasize] bytes
    that were at the cursor, each piece starting where the one before
    stopped, the cursor has advanced by [datasize], [datasize] is zero
    and readable interest is armed. *)
Theorem pieces_complete_the_echo ms :
  forall s,
    ms <> [] -> Forall (fun m => 0 < m) ms ->
    total ms = datasize s -> 0 <= bufptr s ->
    datasize s < 18446744073709551616 ->
    exists t s',
      event_loop (sends ms) s = (t, Ok tt s') /\
      delivered t = bytes_at (buf s) (bufptr s) (datasize s) /\
      count_calls is_sendto t = length ms /\
      bufptr s' = bufptr s + datasize s /\ datasize s' = 0 /\
      buf s' = buf s /\ ev_events s' = READABLE.
Proof.
  induction ms as [|m ms IH]; intros s Hne Hpos Htot Hp Hmax; [congruence|].
  inversion Hpos as [|m' ms' Hm Hrest]; subst m' ms'.
  cbn [total fold_right] in Htot. fold (total ms) in Htot.
  cbn [sends map event_loop]. fold (sends ms).
  erewrite mbind_Ok by (apply one_send; lia).
  assert (Htot0 : 0 <= total ms).
  { clear - Hrest. induction Hrest; cbn [total fold_right]; [lia|].
    fold (total l). lia. }
  assert (Hds : datasize (after_send m s) = total ms).
  { unfold after_send. cbn. rewrite wrap64_small by lia. lia. }
  assert (Hbp : bufptr (after_send m s) = bufptr s + m) by reflexivity.
  assert (Hbuf : buf (after_send m s) = buf s) by reflexivity.
  assert (Hpiece : firstn (Z.to_nat m)
                     (bytes_at (buf s) (bufptr s) (datasize s)) ++
                   bytes_at (buf s) (bufptr s + m) (datasize s - m) =
                   bytes_at (buf s) (bufptr s) (datasize s)).
  { rewrite <- bytes_at_advance by lia. apply firstn_skipn. }
  destruct ms as [|m2 ms].
  - (* the last piece *)
    cbn [total fold_right] in *. cbn [sends map event_loop mret fst snd].
    eexists; eexists. split; [reflexivity|].
    assert (Hm' : m = datasize s) by lia.
    rewrite app_nil_r. unfold delivered, count_calls.
    cbn. rewrite (proj2 (Z.ltb_ge m 0)) by lia.
    rewrite app_nil_r.
    repeat split; try lia.
    + rewrite Hm'. apply firstn_all2. unfold bytes_at.
      rewrite length_firstn. lia.
    + unfold after_send. cbn. rewrite wrap64_small by lia.
      replace (datasize s - m) with 0 by lia. reflexivity.
    + rewrite wrap64_small by lia.
      replace (datasize s - m) with 0 by lia. reflexivity.
  - (* more pieces follow *)
    destruct (IH (after_send m s)) as (t & s' & Hrun & Hdel & Hcnt & Hb & Hd
                                       & Hbf & Hev);
      [discriminate|exact Hrest|congruence|lia|lia|].
    rewrite Hrun. cbn [fst snd].
    eexists; eexists. split; [reflexivity|].
    rewrite delivered_app, count_calls_app, Hdel, Hcnt, Hb, Hd, Hbf, Hev.
    rewrite Hds, Hbp, Hbuf.
    unfold delivered, count_calls. cbn.
    rewrite (proj2 (Z.ltb_ge m 0)) by lia. rewrite app_nil_r.
    cbn [total fold_right] in *.
    repeat split; try lia.
    replace (m2 + fold_right Z.add 0 ms) with (datasize s - m) by lia.
    exact Hpiece.
Qed.

Lemma pieces_complete_the_echo_witness :
  exists t s',
    event_loop (sends [1; 2; 1]) (after_recv ping client 16 junk0)
    = (t, Ok tt s') /\
    delivered t = ping /\ ev_events s' = READABLE.
Proof.
  destruct (pieces_complete_the_echo [1; 2; 1]
              (after_recv ping client 16 junk0))
    as (t & s' & H1 & H2 & _ & _ & _ & _ & H3).
  - discriminate.
  - repeat constructor.
  - vm_compute; reflexivity.
  - vm_compute; discriminate.
  - vm_compute; reflexivity.
  - exists t, s'. split; [exact H1|]. split; [|exact H3].
    rewrite H2. vm_compute; reflexivity.
Defined.

(** ** Reads of the buffer *)

Lemma sendto_in_body E s fd payload dest destlen r :
  In (C_sendto fd payload dest destlen r) (fst (loop_body E s)) ->
  (exists reported,
      i_wait E = WaitReady reported /\ has_bits reported EPOLLIN = false /\
      has_bits reported EPOLLOUT = true) /\
  payload = bytes_at (buf s) (bufptr s) (datasize s) /\
  dest = insaddr s /\ destlen = insaddrlen s.
Proof.
  loop_body_cases E; cbn; intros H;
    repeat match type of H with
           | _ \/ _ => destruct H as [H|H]
           | False => contradiction
           end;
    try discriminate H;
    inversion H; subst; eauto 10.
Qed.

Lemma two_states_main junk E es t s :
  main_ok junk E es = true ->
  main junk E es = (t, Looping s) ->
  awaiting t s \/ echoing t s.
Proof.
  intros Hok H. revert H. generalize (Forall_any es). revert Hok.
  apply (main_invariant (fun t s => awaiting t s \/ echoing t s)
           (fun _ => True)).
  - intros junk0 E0 t1 s1 Hsetup. apply setup_Ok in Hsetup.
    cbv zeta in Hsetup. destruct Hsetup as (-> & _ & _ & _ & _ & _ & Hev & _).
    left. split; [exact Hev|reflexivity].
  - intros t0 s0 E1 t1 s1 HI Henv _. now apply two_states_step.
Qed.

(** X9. Every [sendto] the program makes reads inside the allocated
    region: the cursor is not negative and cursor plus [datasize] is at
    most [MAX_BUFSIZE]; the bytes it passes are the unsent part of the
    last datagram received and the destination is the address that
    datagram came from.  In particular the program never sends before it
    has received, so the variables it has not assigned yet are never
    read. *)
Theorem sendto_reads_inside_buffer junk E0 es t s E fd payload dest destlen r :
  main_ok junk E0 es = true ->
  main junk E0 es = (t, Looping s) ->
  env_ok s E = true ->
  In (C_sendto fd payload dest destlen r) (fst (loop_body E s)) ->
  0 <= bufptr s /\ 0 <= datasize s /\
  bufptr s + datasize s <= MAX_BUFSIZE /\
  payload = unsent t /\ peer t = Some (dest, destlen) /\
  call_in_trace is_datagram t = true.
Proof.
  intros Hok H Henv Hin.
  apply sendto_in_body in Hin.
  destruct Hin as ((reported & Hw & _ & Hout) & -> & -> & ->).
  destruct (env_ok_inv _ _ _ Henv Hw) as (_ & Oout & _).
  specialize (Oout Hout).
  destruct (two_states_main _ _ _ _ _ Hok H)
    as [[Hev _]|(Hev & Hp & Hd & Hsum & Hbytes & Hlen & Hpeer)].
  { rewrite Hev in Oout. discriminate. }
  repeat split; auto.
  (* a peer is recorded only by a received datagram *)
  clear - Hpeer. unfold peer, in_flight, call_in_trace in *.
  assert (Hgen : forall f,
             snd (fold_left flight_step t f) <> snd f ->
             existsb is_datagram t = true).
  { clear Hpeer.
    induction t as [|c t IH]; intros f Hf; [now contradiction Hf|].
    cbn [fold_left existsb] in *.
    destruct (is_datagram c) eqn:Hc; [reflexivity|].
    apply (IH (flight_step f c)).
    replace (snd (flight_step f c)) with (snd f); [exact Hf|].
    destruct c; try reflexivity.
    - destruct r; [reflexivity|discriminate Hc].
    - cbn. destruct (r <? 0); reflexivity. }
  apply (Hgen ([], None)). rewrite Hpeer. discriminate.
Qed.

Lemma sendto_reads_inside_buffer_witness :
  exists t s,
    main junk0 setup_fine [readable (RecvOk ping client 16)]
    = (t, Looping s) /\
    0 <= bufptr s /\ 0 <= datasize s /\
    bufptr s + datasize s <= MAX_BUFSIZE /\
    ping = unsent t /\ peer t = Some (client, 16) /\
    call_in_trace is_datagram t = true.
Proof.
  eexists; eexists. split; [vm_compute; reflexivity|].
  refine (sendto_reads_inside_buffer junk0 setup_fine
            [readable (RecvOk ping client 16)] _ _ (writable (ok 4))
            3 ping client 16 4 _ _ _ _).
  - vm_compute; reflexivity.
  - vm_compute; reflexivity.
  - vm_compute; reflexivity.
  - vm_compute. right. left. reflexivity.
Defined.

(** ** The end of a run *)

(** X10. When [main] returns after the region was allocated, nothing has
    been closed or released before the two messages of the fatal end;
    after them the program only closes the epoll descriptor (if it has
    one), then the socket (if it has one), then releases the region, and
    makes no other call: no descriptor is used after it is closed and
    the region is not used after it is released. *)
Theorem teardown_is_the_tail junk E es t code :
  main junk E es = (t, Exited code) ->
  e_malloc E = true ->
  exists pre w e s,
    t = pre ++ diag w e ++
        (if 0 <=? epfd s then [C_close (epfd s)] else []) ++
        (if 0 <=? sockfd s then [C_close (sockfd s)] else []) ++ [C_free] /\
    closed pre = [] /\ releases pre = 0%nat /\ opened pre = held s.
Proof.
  intros H Hmalloc. apply main_Exited in H.
  destruct H as [(Hno & _)|(_ & t1 & s & Hrun & -> & _)]; [congruence|].
  apply run_Out in Hrun; [|reflexivity].
  destruct Hrun as (_ & (pre & c & w & e & -> & Hg & _) & Ho & Hc & _ & Hr).
  exists (C_malloc MAX_BUFSIZE true :: pre ++ [c]), w, e, s.
  change (pre ++ c :: diag w e) with (pre ++ [c] ++ diag w e) in *.
  rewrite app_assoc in *.
  assert (Hc' : closed (pre ++ [c]) = []).
  { unfold closed in *. rewrite flat_map_app in Hc. cbn in Hc.
    rewrite app_nil_r in Hc. exact Hc. }
  assert (Hr' : releases (pre ++ [c]) = 0%nat).
  { unfold releases in *. rewrite filter_app, length_app in Hr. cbn in Hr.
    lia. }
  assert (Ho' : opened (pre ++ [c]) = held s).
  { unfold opened in *. rewrite flat_map_app in Ho. cbn in Ho.
    rewrite app_nil_r in Ho. exact Ho. }
  split; [|split; [|split]].
  - unfold teardown. cbn [fst app]. rewrite <- !app_assoc. reflexivity.
  - exact Hc'.
  - exact Hr'.
  - exact Ho'.
Qed.

Lemma teardown_is_the_tail_witness :
  exists t,
    main junk0 setup_fine [wait_fails 9] = (t, Exited EXIT_FAILURE) /\
    exists pre w e s,
      t = pre ++ diag w e ++
          (if 0 <=? epfd s then [C_close (epfd s)] else []) ++
          (if 0 <=? sockfd s then [C_close (sockfd s)] else []) ++
          [C_free] /\
      closed pre = [] /\ releases pre = 0%nat /\ opened pre = held s.
Proof.
  eexists. split; [vm_compute; reflexivity|].
  apply (teardown_is_the_tail junk0 setup_fine [wait_fails 9] _
           EXIT_FAILURE); vm_compute; reflexivity.
Defined.

(** ** Iterations that transfer nothing *)

(** X11. An iteration that stays in the loop without transferring data
    leaves [datasize], the cursor, the region and the saved address as
    they were.  After a [recvfrom] that failed (with [EINTR] or
    [EAGAIN]) readable interest is registered again and the saved length
    of the address has been reset to the size of [struct sockaddr].
    After a [sendto] that failed, with bytes still to send, writable
    interest is registered again.  After a notification that reports
    the socket neither readable nor writable, no transfer is attempted
    and the interest registered is the one held in [ev.events], as it
    was. *)
Theorem idle_iteration_changes_nothing E s t s' reported :
  loop_body E s = (t, Ok tt s') ->
  i_wait E = WaitReady reported ->
  (has_bits reported EPOLLIN = true -> (exists e, i_recv E = RecvErr e) ->
   (datasize s' = datasize s /\ bufptr s' = bufptr s /\ buf s' = buf s /\
    insaddr s' = insaddr s) /\
   insaddrlen s' = SIZEOF_SOCKADDR /\ registered t = Some READABLE) /\
  (has_bits reported EPOLLIN = false -> has_bits reported EPOLLOUT = true ->
   rv (i_send E) < 0 ->
   (datasize s' = datasize s /\ bufptr s' = bufptr s /\ buf s' = buf s /\
    insaddr s' = insaddr s) /\
   insaddrlen s' = insaddrlen s /\
   (datasize s <> 0 -> registered t = Some WRITABLE)) /\
  (has_bits reported EPOLLIN = false -> has_bits reported EPOLLOUT = false ->
   s' = s /\ t = [wait_call E s; ctl_call s] /\
   registered t = Some (ev_events s)).
Proof.
  intros Hbody Hw. apply loop_body_Ok in Hbody.
  destruct Hbody as [Hw'|r' e Hw' Hin' Hrecv' Htr Hctl u
                    |r' payload src srclen Hw' Hin' Hrecv' Hctl u
                    |r' Hw' Hin' Hout' Hr Htr Hctl u
                    |r' Hw' Hin' Hout' Hr Hctl u
                    |r' Hw' Hin' Hout' Hctl];
    try congruence;
    (assert (r' = reported) by congruence; subst r');
    (split; [|split]);
    try (intros; congruence);
    try (intros ? [e0 He0]; congruence).
  - intros _ _. cbn. auto 10.
  - intros _ _ _. cbn. repeat split; auto.
    intros Hz. destruct (next_interest_cases (datasize s)) as [[H0 _]|[_ ->]];
      [contradiction|reflexivity].
  - intros _ _ Hneg. lia.
  - intros _ _. cbn. auto.
Qed.

Lemma idle_iteration_changes_nothing_witness :
  let s := after_recv ping client 16 junk0 in
  let E := writable (failed EAGAIN) in
  exists t s',
    loop_body E s = (t, Ok tt s') /\
    (datasize s' = datasize s /\ bufptr s' = bufptr s /\ buf s' = buf s /\
     insaddr s' = insaddr s) /\
    insaddrlen s' = insaddrlen s /\
    (datasize s <> 0 -> registered t = Some WRITABLE).
Proof.
  intros s E.
  exists (fst (loop_body E s)),
         (set_ev_events WRITABLE (set_errno EAGAIN s)).
  assert (H : loop_body E s =
              (fst (loop_body E s),
               Ok tt (set_ev_events WRITABLE (set_errno EAGAIN s))))
    by (vm_compute; reflexivity).
  split; [exact H|].
  refine (proj1 (proj2 (idle_iteration_changes_nothing E s _ _ EPOLLOUT H _))
            _ _ _); vm_compute; reflexivity.
Defined.

(** ** The descriptors the loop works on *)

Lemma iteration_descriptors E s t s' :
  iteration E s t s' ->
  forallb (on_descriptors (epfd s) (sockfd s)) t = true.
Proof.
  intros H. destruct H; subst; cbn; rewrite ?Z.eqb_refl; reflexivity.
Qed.

(** X12. As long as [main] stays in the loop, every call it makes after
    the setup is an [epoll_wait] (one event slot, no timeout) or an
    [epoll_ctl] with [EPOLL_CTL_MOD] on the descriptor [epoll_create1]
    returned, or a [recvfrom] (of [MAX_BUFSIZE] bytes) or a [sendto] on
    the descriptor [socket] returned: the loop never touches another
    descriptor and never closes, opens or allocates anything. *)
Theorem loop_works_on_its_descriptors junk E es t s :
  main junk E es = (t, Looping s) ->
  forallb (on_descriptors (rv (e_epoll_create1 E)) (rv (e_socket E)))
          (skipn 8 t) = true /\
  length (firstn 8 t) = 8%nat.
Proof.
  intros H. apply main_Looping in H.
  destruct H as (_ & t1 & s1 & t2 & Hsetup & Hloop & ->).
  apply setup_Ok in Hsetup. cbv zeta in Hsetup.
  destruct Hsetup as (-> & _ & _ & _ & <- & <- & _).
  cbn [app skipn firstn length]. split; [|reflexivity].
  clear - Hloop. revert s1 t2 Hloop.
  induction es as [|E' es IH]; intros s1 t2 Hloop.
  - inversion Hloop. reflexivity.
  - apply event_loop_Ok_inv in Hloop.
    destruct Hloop as (u1 & s2 & u2 & Hit & Hrest & ->).
    rewrite forallb_app, (iteration_descriptors _ _ _ _ Hit).
    apply iteration_frame in Hit. destruct Hit as (_ & Hfd & Hep & _).
    rewrite <- Hfd, <- Hep. exact (IH _ _ Hrest).
Qed.

Lemma loop_works_on_its_descriptors_witness :
  exists t s,
    main junk0 setup_fine
         [readable (RecvOk ping client 16); writable (ok 4)]
    = (t, Looping s) /\
    forallb (on_descriptors 4 3) (skipn 8 t) = true /\
    length (firstn 8 t) = 8%nat.
Proof.
  eexists; eexists. split; [vm_compute; reflexivity|].
  eapply (loop_works_on_its_descriptors junk0 setup_fine
            [readable (RecvOk ping client 16); writable (ok 4)]).
  vm_compute; reflexivity.
Defined.

(** ** Which step of the setup fails *)

Lemma fatal_end_at_base c w e :
  guard c = Some w -> fatal_end_at w (c :: diag w e).
Proof. intros H. exists [], c, e. auto. Qed.

Lemma fatal_end_at_cons w c t :
  is_stderr c = false -> fatal_end_at w t -> fatal_end_at w (c :: t).
Proof.
  intros Hc (pre & c0 & e & -> & Hg & Hpre).
  exists (c :: pre), c0, e. repeat split; auto.
  unfold stderr in *. cbn. rewrite Hc. exact Hpre.
Qed.

Ltac use_conditions :=
  repeat match goal with
         | Hc : ?b = true |- context [?b] => rewrite Hc
         | Hc : ?b = false |- context [?b] => rewrite Hc
         end;
  cbn [negb orb].

(** X13. The setup succeeds exactly when [socket], [bind] and
    [epoll_create1] return a value that is not negative, neither [fcntl]
    returns -1, and [setsockopt] and [epoll_ctl] return 0.  Otherwise it
    stops at the first of these checks that does not pass, in the order
    of the calls: the last call made is the one that check guards, and
    what is written to the error stream are the two messages of that
    check. *)
Theorem setup_stops_at_first_failure E s :
  match first_failure E with
  | None => exists s', snd (setup E s) = Ok tt s'
  | Some w =>
      (exists s', snd (setup E s) = Out s') /\
      fatal_end_at w (fst (setup E s))
  end.
Proof.
  destruct (setup E s) as [t [[] s'|s']] eqn:Hsetup; unfold setup in Hsetup.
  - do 14 step_Ok Hsetup; eval_in Hsetup; try discriminate.
    unfold first_failure. use_conditions. eexists. reflexivity.
  - repeat step_Out Hsetup; try eval_in Hsetup; try discriminate;
      unfold first_failure; use_conditions;
      (split; [eexists; reflexivity|]); cbn [fst app];
      repeat first [ apply fatal_end_at_base; reflexivity
                   | apply fatal_end_at_cons; [reflexivity|] ].
Qed.
